(** * how: response parsing, command execution and shell history

    A shallow embedding of [internal/ui/ui.go] (package [ui]) together with
    the parts of Go's [strings] and [regexp] packages it calls.  Go strings
    are byte sequences, so they are embedded as [string] (a list of 8-bit
    [ascii] characters); no UTF-8 validity is assumed anywhere. *)

From stdpp Require Import gmap strings.
From Stdlib Require Import String Ascii List ZArith Lia Bool DecimalString.
Import ListNotations.

Local Open Scope list_scope.
Local Open Scope string_scope.

(** ** Bytes and byte strings *)

Definition byte_of (c : ascii) : N := N_of_ascii c.

Definition LF : ascii := ascii_of_N 10.

Definition nl : string := String LF "".

Fixpoint rev_string (s : string) : string :=
  match s with
  | "" => ""
  | String c r => rev_string r ++ String c ""
  end.

Fixpoint drop_string (n : nat) (s : string) : string :=
  match n, s with
  | O, _ => s
  | S _, "" => ""
  | S m, String _ r => drop_string m r
  end.

Fixpoint take_string (n : nat) (s : string) : string :=
  match n, s with
  | O, _ => ""
  | S _, "" => ""
  | S m, String c r => String c (take_string m r)
  end.

(** Every byte of [s] satisfies [p]. *)
Fixpoint all_string (p : ascii -> bool) (s : string) : bool :=
  match s with
  | "" => true
  | String c r => p c && all_string p r
  end.

(** ** Go's [strings] package *)

Module GoStrings.

(** [strings.HasPrefix]. *)
Fixpoint HasPrefix (s p : string) {struct p} : bool :=
  match p, s with
  | "", _ => true
  | String _ _, "" => false
  | String a p', String b s' => if Ascii.eqb a b then HasPrefix s' p' else false
  end.

(** [strings.HasSuffix]. *)
Definition HasSuffix (s suffix : string) : bool :=
  HasPrefix (rev_string s) (rev_string suffix).

(** [strings.TrimPrefix]: [s] without the leading [p], or [s] itself. *)
Definition TrimPrefix (s p : string) : string :=
  if HasPrefix s p then drop_string (String.length p) s else s.

(** The table [asciiSpace] of strings.go: tab, LF, VT, FF, CR, space. *)
Definition asciiSpace (c : ascii) : bool :=
  let n := byte_of c in
  ((9 <=? n) && (n <=? 13) || (n =? 32))%N.

(** [unicode.IsSpace] on the code points above U+007F, read off their UTF-8
    encodings.  Two bytes: U+0085 (C2 85) and U+00A0 (C2 A0). *)
Definition space2 (c1 c2 : ascii) : bool :=
  ((byte_of c1 =? 194) && ((byte_of c2 =? 133) || (byte_of c2 =? 160)))%N.

(** Three bytes: U+1680 (E1 9A 80), U+2000..U+200A (E2 80 80..8A),
    U+2028, U+2029 (E2 80 A8, A9), U+202F (E2 80 AF), U+205F (E2 81 9F)
    and U+3000 (E3 80 80). *)
Definition space3 (c1 c2 c3 : ascii) : bool :=
  let a := byte_of c1 in
  let b := byte_of c2 in
  let c := byte_of c3 in
  ((a =? 225) && (b =? 154) && (c =? 128)
   || (a =? 226) && (b =? 128)
        && ((128 <=? c) && (c <=? 138) || (c =? 168) || (c =? 169) || (c =? 175))
   || (a =? 226) && (b =? 129) && (c =? 159)
   || (a =? 227) && (b =? 128) && (c =? 128))%N.

(** Removal of the white-space runes at the front of [s].  [p2] and [p3]
    recognise the two- and three-byte encodings, so that the same loop
    serves the reversed string. *)
Fixpoint trim_lead (p2 : ascii -> ascii -> bool)
    (p3 : ascii -> ascii -> ascii -> bool) (s : string) : string :=
  match s with
  | "" => ""
  | String c1 s1 =>
      if asciiSpace c1 then trim_lead p2 p3 s1
      else
        match s1 with
        | "" => s
        | String c2 s2 =>
            if p2 c1 c2 then trim_lead p2 p3 s2
            else
              match s2 with
              | "" => s
              | String c3 s3 => if p3 c1 c2 c3 then trim_lead p2 p3 s3 else s
              end
        end
  end.

(** [strings.TrimLeftFunc(s, unicode.IsSpace)]. *)
Definition TrimLeftSpace (s : string) : string := trim_lead space2 space3 s.

(** [strings.TrimRightFunc(s, unicode.IsSpace)]: the last rune is decoded
    backwards, which on the encodings above is a match on the reversed
    bytes. *)
Definition TrimRightSpace (s : string) : string :=
  rev_string
    (trim_lead (fun a b => space2 b a) (fun a b c => space3 c b a)
       (rev_string s)).

(** [strings.TrimSpace]. *)
Definition TrimSpace (s : string) : string := TrimRightSpace (TrimLeftSpace s).

(** [strings.Split(s, "\n")]: the pieces between line feeds; never empty. *)
Fixpoint SplitLines (s : string) : list string :=
  match s with
  | "" => [""]
  | String c r =>
      if Ascii.eqb c LF then "" :: SplitLines r
      else
        match SplitLines r with
        | h :: t => String c h :: t
        | [] => [String c ""]
        end
  end.

(** The runes of [s] as [strings.Fields] sees them: [None] for a white-space
    rune, [Some b] for every other byte. *)
Fixpoint space_marks (s : string) : list (option ascii) :=
  match s with
  | "" => []
  | String c1 s1 =>
      if asciiSpace c1 then None :: space_marks s1
      else
        match s1 with
        | "" => Some c1 :: space_marks s1
        | String c2 s2 =>
            if space2 c1 c2 then None :: space_marks s2
            else
              match s2 with
              | "" => Some c1 :: space_marks s1
              | String c3 s3 =>
                  if space3 c1 c2 c3 then None :: space_marks s3
                  else Some c1 :: space_marks s1
              end
        end
  end.

Fixpoint fields_of (l : list (option ascii)) : list string :=
  match l with
  | [] => []
  | None :: r => fields_of r
  | Some c :: r =>
      match r with
      | Some _ :: _ =>
          match fields_of r with
          | h :: t => String c h :: t
          | [] => [String c ""]
          end
      | _ => String c "" :: fields_of r
      end
  end.

(** [strings.Fields]: the maximal runs without white space. *)
Definition Fields (s : string) : list string := fields_of (space_marks s).

Definition isASCII (s : string) : bool :=
  forallb (fun c => (byte_of c <? 128)%N) (list_ascii_of_string s).

Definition lower_byte (c : ascii) : ascii :=
  let n := byte_of c in
  if ((65 <=? n) && (n <=? 90))%N then ascii_of_N (n + 32) else c.

Fixpoint map_string (f : ascii -> ascii) (s : string) : string :=
  match s with
  | "" => ""
  | String c r => String (f c) (map_string f r)
  end.

(** [strings.ToLower]: bytewise on ASCII input, and [strings.Map] with
    [unicode.ToLower] (here [unicode_lower], the Unicode case tables are
    not part of the embedding) as soon as one byte is 0x80 or above. *)
Definition ToLower (unicode_lower : string -> string) (s : string) : string :=
  if isASCII s then map_string lower_byte s else unicode_lower s.

End GoStrings.

(** ** Go's [regexp] package, as far as the two patterns need it

    Go matches leftmost-first: among the matches that start at the
    leftmost possible position it returns the one a backtracking search
    finds first, trying the alternatives of [|] in order and the greedy
    [?], [*] and [+] with the longer choice first.  The matcher below is
    that search, in continuation-passing style.  It works on bytes; both
    patterns begin and end every piece around [\S+] with ASCII bytes, so a
    match never starts or stops inside a multi-byte rune. *)

Module Regexp.
Import GoStrings.

Inductive re : Type :=
  | Lit (s : string)               (* a literal string *)
  | Cls (p : ascii -> bool)        (* one byte of a class *)
  | Cat (r1 r2 : re)               (* r1 r2 *)
  | Alt (r1 r2 : re)               (* r1|r2 *)
  | Opt (r : re)                   (* (?:r)? *)
  | Star (p : ascii -> bool)       (* c*, for a class c *)
  | Cap (r : re).                  (* (r), the capture group 1 *)

Definition Plus (p : ascii -> bool) : re := Cat (Cls p) (Star p).

(** Perl classes of RE2: [\s] is [\t\n\f\r ] (no vertical tab), [\d] is
    [0-9], [\S] is the complement of [\s]. *)
Definition perl_s (c : ascii) : bool :=
  let n := byte_of c in
  ((n =? 9) || (n =? 10) || (n =? 12) || (n =? 13) || (n =? 32))%N.

Definition perl_S (c : ascii) : bool := negb (perl_s c).

Definition perl_d (c : ascii) : bool :=
  let n := byte_of c in ((48 <=? n) && (n <=? 57))%N.

Definition strip_prefix (p s : string) : option string :=
  if HasPrefix s p then Some (drop_string (String.length p) s) else None.

Section Run.
Context {R : Type}.

(** Greedy iteration of a class: the longest run first, then shorter. *)
Fixpoint star (p : ascii -> bool) (s : string) (k : string -> option R)
    : option R :=
  match s with
  | String c s' =>
      if p c then
        match star p s' k with
        | Some x => Some x
        | None => k s
        end
      else k s
  | "" => k s
  end.

(** [run r s cap k]: match [r] at the front of [s], then hand the rest
    of the input and the text of group 1 to [k]; [None] when every
    choice fails. *)
Fixpoint run (r : re) (s : string) (cap : option string)
    (k : string -> option string -> option R) : option R :=
  match r with
  | Lit l =>
      match strip_prefix l s with
      | Some s' => k s' cap
      | None => None
      end
  | Cls p =>
      match s with
      | String c s' => if p c then k s' cap else None
      | "" => None
      end
  | Cat r1 r2 => run r1 s cap (fun s' cap' => run r2 s' cap' k)
  | Alt r1 r2 =>
      match run r1 s cap k with
      | Some x => Some x
      | None => run r2 s cap k
      end
  | Opt r1 =>
      match run r1 s cap k with
      | Some x => Some x
      | None => k s cap
      end
  | Star p => star p s (fun s' => k s' cap)
  | Cap r1 =>
      run r1 s cap
        (fun s' _ =>
           k s' (Some (take_string (String.length s - String.length s') s)))
  end.
End Run.

(** A match of [r] at the very front of [s]: the whole match and group 1
    (empty when the group took no part). *)
Definition match_here (r : re) (s : string) : option (list string) :=
  run r s None
    (fun s' cap =>
       Some [take_string (String.length s - String.length s') s;
             match cap with Some c => c | None => "" end]).

(** [Regexp.FindStringSubmatch]: the leftmost match, or nil. *)
Fixpoint FindStringSubmatch (r : re) (s : string) : list string :=
  match match_here r s with
  | Some m => m
  | None =>
      match s with
      | "" => []
      | String _ s' => FindStringSubmatch r s'
      end
  end.

(** The texts a pattern matches, with the content of group 1 before and
    after: what [run] searches for. *)
Inductive matches : re -> string -> option string -> option string -> Prop :=
  | M_Lit l cap : matches (Lit l) l cap cap
  | M_Cls p c cap : p c = true -> matches (Cls p) (String c "") cap cap
  | M_Cat r1 r2 w1 w2 cap cap1 cap2 :
      matches r1 w1 cap cap1 -> matches r2 w2 cap1 cap2 ->
      matches (Cat r1 r2) (w1 ++ w2) cap cap2
  | M_AltL r1 r2 w cap cap' :
      matches r1 w cap cap' -> matches (Alt r1 r2) w cap cap'
  | M_AltR r1 r2 w cap cap' :
      matches r2 w cap cap' -> matches (Alt r1 r2) w cap cap'
  | M_OptSome r w cap cap' :
      matches r w cap cap' -> matches (Opt r) w cap cap'
  | M_OptNone r cap : matches (Opt r) "" cap cap
  | M_Star p w cap : all_string p w = true -> matches (Star p) w cap cap
  | M_Cap r w cap cap' :
      matches r w cap cap' -> matches (Cap r) w cap (Some w).

(** [text] contains a match of [r] whose group 1 is [name]. *)
Definition occurs (r : re) (text name : string) : Prop :=
  exists pre w post,
    text = pre ++ w ++ post /\ matches r w None (Some name).

End Regexp.

(** ** [internal/ui/ui.go] *)

Module ui.
Import GoStrings Regexp.

Record Result := { Command : string; Explanation : string }.

(** One turn of the loop of [ParseResponse] on the local [result]. *)
Definition parse_line (result : Result) (line : string) : Result :=
  let line := TrimSpace line in
  if HasPrefix line "COMMAND:" then
    {| Command := TrimSpace (TrimPrefix line "COMMAND:");
       Explanation := Explanation result |}
  else if HasPrefix line "EXPLANATION:" then
    {| Command := Command result;
       Explanation := TrimSpace (TrimPrefix line "EXPLANATION:") |}
  else result.

Definition parse_lines (lines : list string) (result : Result) : Result :=
  fold_left parse_line lines result.

Definition ParseResponse (response : string) : Result :=
  parse_lines (SplitLines response) {| Command := ""; Explanation := "" |}.

Section Styles.
(** [labelStyle.Render], [commandStyle.Render], [explanationStyle.Render]
    and [errorStyle.Render]; what lipgloss writes depends on the terminal. *)
Variables labelStyle_Render commandStyle_Render : string -> string.
Variables explanationStyle_Render errorStyle_Render : string -> string.

(** [Display]: the text written to standard output. *)
Definition Display (result : Result) : string :=
  nl
  ++ ("  " ++ labelStyle_Render "$" ++ " "
      ++ commandStyle_Render (Command result) ++ nl)
  ++ (if negb (String.eqb (Explanation result) "") then
        "  " ++ explanationStyle_Render (Explanation result) ++ nl
      else "")
  ++ nl.

(** [DisplayError]: the text written to the error stream. *)
Definition DisplayError (msg : string) : string :=
  nl ++ "  " ++ errorStyle_Render "Error:" ++ " " ++ msg ++ nl ++ nl.

End Styles.

(** [DisplayQuiet]: the text written to standard output. *)
Definition DisplayQuiet (result : Result) : string := Command result ++ nl.


(** Go's [error] values that reach this package: the [*exec.ExitError] of a
    child that exited with [code], [io.EOF], any other error, and the
    wrapping of [fmt.Errorf] with [%w]. *)
Inductive error : Type :=
  | ExitError (code : Z)
  | EOF
  | OtherError (msg : string)
  | Errorf (msg : string) (wrapped : error).

(** [errors.As(err, &exitErr)] followed by [exitErr.ExitCode()]. *)
Fixpoint As_ExitError (err : error) : option Z :=
  match err with
  | ExitError code => Some code
  | Errorf _ wrapped => As_ExitError wrapped
  | EOF | OtherError _ => None
  end.

(** The pattern of [notFoundRe], piece by piece (pieces are set apart by
    blanks here; the blanks that belong to the pattern are those of the
    literals ["line "], ["command "] and ["not found"]):
    [(?:sh|bash)]  [:]  [\s*]  [(?:] ["line "] [\d+] [:] [\s*] [)?]
    [(\S+)]  [:]  [\s*]  [(?:] ["command "] [)?]  ["not found"]. *)
Definition notFoundRe : re :=
  Cat (Alt (Lit "sh") (Lit "bash"))
  (Cat (Lit ":")
  (Cat (Star perl_s)
  (Cat (Opt (Cat (Lit "line ") (Cat (Plus perl_d) (Cat (Lit ":") (Star perl_s)))))
  (Cat (Cap (Plus perl_S))
  (Cat (Lit ":")
  (Cat (Star perl_s)
  (Cat (Opt (Lit "command "))
       (Lit "not found")))))))).

(** The pattern of [notFoundZshRe]:
    ["zsh:"]  [\s*]  ["command not found:"]  [\s*]  [(\S+)]. *)
Definition notFoundZshRe : re :=
  Cat (Lit "zsh:")
  (Cat (Star perl_s)
  (Cat (Lit "command not found:")
  (Cat (Star perl_s)
       (Cap (Plus perl_S))))).

(** [m[1]] after the test [len(m) > 1]. *)
Definition submatch1 (m : list string) : option string :=
  if (1 <? List.length m)%nat then nth_error m 1 else None.

Definition parseNotFoundCommand (stderr command : string) : string :=
  match submatch1 (FindStringSubmatch notFoundRe stderr) with
  | Some name => name
  | None =>
      match submatch1 (FindStringSubmatch notFoundZshRe stderr) with
      | Some name => name
      | None =>
          match Fields command with
          | first :: _ => first
          | [] => ""
          end
      end
  end.

(** What one call writes and does: the text sent to standard output and to
    the error stream, the commands handed to [sh -c], and the returned
    error ([None] is nil). *)
Record Outcome := {
  stdout : string;
  stderr : string;
  ran : list string;
  ret : option error
}.

(** What the child [sh -c command] does: its output on both streams and
    the result of [cmd.Run]. *)
Record Child := {
  child_stdout : string;
  child_stderr : string;
  child_err : option error
}.

Section Host.
(** [runtime.GOOS]. *)
Variable GOOS : string.
(** [exec.LookPath(name)] returned a nil error. *)
Variable LookPath : string -> bool.
(** [hintStyle.Render], which depends on the terminal. *)
Variable hintStyle_Render : string -> string.
(** The behaviour of [sh -c command] on this host. *)
Variable sh_c : string -> Child.
(** [strings.Map(unicode.ToLower, _)], see [GoStrings.ToLower]. *)
Variable unicode_lower : string -> string.

Definition installSuggestion (cmdName : string) : string :=
  if String.eqb GOOS "darwin" then "Install with: brew install " ++ cmdName
  else if String.eqb GOOS "linux" then
    if LookPath "apt" then "Install with: sudo apt install " ++ cmdName
    else if LookPath "dnf" then "Install with: sudo dnf install " ++ cmdName
    else if LookPath "pacman" then "Install with: sudo pacman -S " ++ cmdName
    else "Install " ++ cmdName ++ " using your system package manager"
  else "Install " ++ cmdName ++ " using your system package manager".

(** The three [Fprint] calls of the hint. *)
Definition hint_text (cmdName : string) : string :=
  nl ++ "  " ++ hintStyle_Render "Hint:" ++ " " ++ cmdName
     ++ " is not installed." ++ nl
     ++ "  " ++ installSuggestion cmdName ++ nl.

(** The text [RunCommand] adds to the error stream after the child's. *)
Definition hint_for (err : option error) (stderrBuf command : string)
    : string :=
  match err with
  | Some e =>
      match As_ExitError e with
      | Some code =>
          if (code =? 127)%Z then
            let cmdName := parseNotFoundCommand stderrBuf command in
            if negb (String.eqb cmdName "") then hint_text cmdName else ""
          else ""
      | None => ""
      end
  | None => ""
  end.

Definition RunCommand (command : string) : Outcome :=
  let child := sh_c command in
  let stderrBuf := child_stderr child in
  let err := child_err child in
  {| stdout := nl ++ child_stdout child;
     stderr := stderrBuf ++ hint_for err stderrBuf command;
     ran := [command];
     ret := err |}.

(** [bufio.Reader.ReadString] with delimiter LF on the bytes left on standard
    input: the line with its delimiter, or what is left and [io.EOF]. *)
Fixpoint ReadString (input : string) : string * option error :=
  match input with
  | "" => ("", Some EOF)
  | String c r =>
      if Ascii.eqb c LF then (String c "", None)
      else let '(line, err) := ReadString r in (String c line, err)
  end.

Definition ConfirmAndRun (command stdin : string) : Outcome :=
  let prompt := "  Run this command? [y/N] " in
  let '(input, err) := ReadString stdin in
  match err with
  | Some e =>
      {| stdout := prompt; stderr := ""; ran := [];
         ret := Some (Errorf "reading input: " e) |}
  | None =>
      let input := TrimSpace (ToLower unicode_lower input) in
      if negb (String.eqb input "y") && negb (String.eqb input "yes") then
        {| stdout := prompt; stderr := ""; ran := []; ret := None |}
      else
        let o := RunCommand command in
        {| stdout := prompt ++ stdout o; stderr := stderr o;
           ran := ran o; ret := ret o |}
  end.

End Host.

End ui.

(** ** The shell history writer

    [shellHistoryFile], [isZshExtendedHistory] and [addToShellHistory] are
    called by the tests of package [ui] but their bodies are not in
    [ui.go]; they are embedded from the design document. *)

Module History.
Import GoStrings.

(** Decimal rendering of the epoch seconds. *)
Definition Z_to_string (z : Z) : string := NilZero.string_of_int (Z.to_int z).

Definition is_digit (c : ascii) : bool :=
  let n := byte_of c in ((48 <=? n) && (n <=? 57))%N.

Fixpoint skip_digits (s : string) : string :=
  match s with
  | String c r => if is_digit c then skip_digits r else s
  | "" => ""
  end.

(** One or more digits followed by the byte [sep]: what follows [sep]. *)
Definition digits_then (sep : ascii) (s : string) : option string :=
  match s with
  | String c _ =>
      if is_digit c then
        match skip_digits s with
        | String d r => if Ascii.eqb d sep then Some r else None
        | "" => None
        end
      else None
  | "" => None
  end.

(** Modelled from the spec: the test of a line against the extended zsh
    pattern, colon, blank, digits, colon, digits, semicolon, anything
    (section 4.3, Format detection); the function is missing from the
    sources. *)
Definition extended_line (line : string) : bool :=
  match line with
  | String c1 (String c2 r) =>
      if Ascii.eqb c1 ":" && Ascii.eqb c2 " " then
        match digits_then ":" r with
        | Some r' =>
            match digits_then ";" r' with
            | Some _ => true
            | None => false
            end
        | None => false
        end
      else false
  | _ => false
  end.

(** Modelled from the spec: [isZshExtendedHistory], missing from the
    sources (section 4.3, Format detection): a file is zsh-extended when
    at least one of its lines matches; a file that does not exist is
    plain.  The file system maps a path to the content of the file. *)
Definition isZshExtendedHistory (fs : gmap string string) (path : string)
    : bool :=
  match fs !! path with
  | Some content => existsb extended_line (SplitLines content)
  | None => false
  end.

Section Env.
(** The environment: [$SHELL], [$HISTFILE] (empty when unset) and the
    home directory. *)
Variables SHELL HISTFILE HOME : string.
(** The current Unix time in seconds. *)
Variable now : Z.
(** Whether the file can be opened for appending (permissions, parent
    directory). *)
Variable openable : string -> bool.

(** Modelled from the spec: [shellHistoryFile], missing from the sources
    (section 4.3, History file resolution); the empty string stands for
    no history file, as in [TestShellHistoryFile]. *)
Definition shellHistoryFile (shell : string) : string :=
  if negb (String.eqb HISTFILE "") then HISTFILE
  else if HasSuffix shell "zsh" then HOME ++ "/.zsh_history"
  else if HasSuffix shell "bash" then HOME ++ "/.bash_history"
  else "".

(** Modelled from the spec: the line written for [command] in each
    format (section 4.3, Append semantics); the duration is always 0. *)
Definition history_entry (extended : bool) (command : string) : string :=
  if extended then ": " ++ Z_to_string now ++ ":0;" ++ command ++ nl
  else command ++ nl.

(** Modelled from the spec: [addToShellHistory], missing from the sources
    (section 4.3, Append semantics): no history file or a file that
    cannot be opened leaves the file system as it is. *)
Definition addToShellHistory (command : string) (fs : gmap string string)
    : gmap string string :=
  let histFile := shellHistoryFile SHELL in
  if String.eqb histFile "" then fs
  else if negb (openable histFile) then fs
  else
    let entry := history_entry (isZshExtendedHistory fs histFile) command in
    <[histFile := default "" (fs !! histFile) ++ entry]> fs.

End Env.

End History.

Import GoStrings Regexp ui History.

(** ** Vocabulary of the specification *)

(** A line whose trimmed form starts with the prefix [COMMAND:]. *)
Definition is_command_line (line : string) : bool :=
  HasPrefix (TrimSpace line) "COMMAND:".

(** A line whose trimmed form starts with the prefix [EXPLANATION:]. *)
Definition is_explanation_line (line : string) : bool :=
  HasPrefix (TrimSpace line) "EXPLANATION:".

Definition empty_Result : Result := {| Command := ""; Explanation := "" |}.

(** An ASCII byte that is not white space. *)
Definition token_byte (c : ascii) : bool :=
  (byte_of c <? 128)%N && negb (asciiSpace c).

(** No line feed in [s]. *)
Definition no_LF (s : string) : bool :=
  all_string (fun c => negb (Ascii.eqb c LF)) s.

(** The extended zsh form of a history line: colon, blank, one or more
    digits, colon, one or more digits, semicolon, anything. *)
Definition extended_form (line : string) : Prop :=
  exists d1 d2 rest,
    d1 <> "" /\ d2 <> ""
    /\ all_string is_digit d1 = true /\ all_string is_digit d2 = true
    /\ line = ": " ++ d1 ++ ":" ++ d2 ++ ";" ++ rest.

(** The message of sh and bash for a missing command, piece by piece:
    the shell, a colon, blanks, an optional [line N:] segment, the name,
    a colon, blanks, an optional [command ], and [not found]. *)
Definition sh_not_found_message (w name : string) : Prop :=
  exists shell ws1 line ws2 cmd,
    (shell = "sh" \/ shell = "bash")
    /\ all_string perl_s ws1 = true
    /\ (line = ""
        \/ exists n ws,
             n <> "" /\ all_string perl_d n = true
             /\ all_string perl_s ws = true
             /\ line = "line " ++ n ++ ":" ++ ws)
    /\ name <> "" /\ all_string perl_S name = true
    /\ all_string perl_s ws2 = true
    /\ (cmd = "" \/ cmd = "command ")
    /\ w = shell ++ ":" ++ ws1 ++ line ++ name ++ ":" ++ ws2 ++ cmd
           ++ "not found".

(** The message of zsh: [zsh: command not found: ] and the name. *)
Definition zsh_not_found_message (w name : string) : Prop :=
  exists ws1 ws2,
    all_string perl_s ws1 = true /\ all_string perl_s ws2 = true
    /\ name <> "" /\ all_string perl_S name = true
    /\ w = "zsh:" ++ ws1 ++ "command not found:" ++ ws2 ++ name.

(** [text] contains a message of the given shape about [name]. *)
Definition mentions (shape : string -> string -> Prop) (text name : string)
    : Prop :=
  exists pre w post, text = pre ++ w ++ post /\ shape w name.

(** The sh/bash pattern as the specification words it: after the name
    comes a colon and [command not found], the word [command] included. *)
Definition notFoundRe_as_specified : re :=
  Cat (Alt (Lit "sh") (Lit "bash"))
  (Cat (Lit ":")
  (Cat (Star perl_s)
  (Cat (Opt (Cat (Lit "line ") (Cat (Plus perl_d) (Cat (Lit ":") (Star perl_s)))))
  (Cat (Cap (Plus perl_S))
  (Cat (Lit ":")
  (Cat (Star perl_s)
       (Lit "command not found"))))))).

(** The extraction as the specification words it: [parseNotFoundCommand]
    with the pattern above in the place of [notFoundRe]. *)
Definition parseNotFoundCommand_as_specified (stderr command : string)
    : string :=
  match submatch1 (FindStringSubmatch notFoundRe_as_specified stderr) with
  | Some name => name
  | None =>
      match submatch1 (FindStringSubmatch notFoundZshRe stderr) with
      | Some name => name
      | None =>
          match Fields command with
          | first :: _ => first
          | [] => ""
          end
      end
  end.

(** A host for the examples: Linux with [dnf] only, a plain renderer, and
    a shell that knows [true], fails on [false] and reports anything else
    as missing, with the message of dash. *)
Module Demo.

Definition GOOS : string := "linux".

Definition LookPath (name : string) : bool := String.eqb name "dnf".

Definition Render (text : string) : string := text.

Definition sh_c (command : string) : Child :=
  if String.eqb command "true" then
    {| child_stdout := ""; child_stderr := ""; child_err := None |}
  else if String.eqb command "false" then
    {| child_stdout := ""; child_stderr := "";
       child_err := Some (ExitError 1) |}
  else
    {| child_stdout := "";
       child_stderr := "sh: 1: " ++ command ++ ": not found" ++ nl;
       child_err := Some (ExitError 127) |}.

Definition unicode_lower (s : string) : string := s.

Definition RunCommand := ui.RunCommand GOOS LookPath Render sh_c.

Definition ConfirmAndRun :=
  ui.ConfirmAndRun GOOS LookPath Render sh_c unicode_lower.

End Demo.

(** [s] begins with a white-space rune, for the encodings [p2] and [p3]. *)
Definition lead_space (p2 : ascii -> ascii -> bool)
    (p3 : ascii -> ascii -> ascii -> bool) (s : string) : bool :=
  match s with
  | "" => false
  | String c1 s1 =>
      asciiSpace c1
      || match s1 with
         | "" => false
         | String c2 s2 =>
             p2 c1 c2
             || match s2 with
                | "" => false
                | String c3 _ => p3 c1 c2 c3
                end
         end
  end.

(** [s] begins, respectively ends, with a white-space rune. *)
Definition starts_with_space (s : string) : bool :=
  lead_space space2 space3 s.

Definition ends_with_space (s : string) : bool :=
  lead_space (fun a b => space2 b a) (fun a b c => space3 c b a)
    (rev_string s).

(** [padded] is [line] with ASCII white space added on both sides. *)
Definition padded_line (line padded : string) : Prop :=
  exists a b,
    all_string asciiSpace a = true /\ all_string asciiSpace b = true
    /\ padded = a ++ line ++ b.

(** [text] contains [part]. *)
Definition contains (text part : string) : Prop :=
  exists pre post, text = pre ++ part ++ post.

(** Boolean tests on bytes as arithmetic facts. *)
Ltac bool_to_N H :=
  repeat first
    [ rewrite andb_true_iff in H | rewrite orb_true_iff in H
    | rewrite N.eqb_eq in H | rewrite N.leb_le in H | rewrite N.ltb_lt in H ].

(** Proof steps on [matches]. *)
Ltac done_matches := repeat split; eauto using matches.

Ltac inv_matches :=
  repeat match goal with
         | H : matches (Lit _) _ _ _ |- _ => inversion H; subst; clear H
         | H : matches (Cls _) _ _ _ |- _ => inversion H; subst; clear H
         | H : matches (Cat _ _) _ _ _ |- _ => inversion H; subst; clear H
         | H : matches (Alt _ _) _ _ _ |- _ => inversion H; subst; clear H
         | H : matches (Opt _) _ _ _ |- _ => inversion H; subst; clear H
         | H : matches (Star _) _ _ _ |- _ => inversion H; subst; clear H
         | H : matches (Cap _) _ _ _ |- _ => inversion H; subst; clear H
         end.

(** ** Response parser *)

Example ex_parse :
  ParseResponse ("COMMAND: ls -la" ++ nl ++ "EXPLANATION: List all files in long format")
  = {| Command := "ls -la"; Explanation := "List all files in long format" |}.
Proof. vm_compute. reflexivity. Qed.

Example ex_parse_ws :
  ParseResponse ("  COMMAND:   find . -name '*.go'   " ++ nl ++ "  EXPLANATION:   Find all Go files   ")
  = {| Command := "find . -name '*.go'"; Explanation := "Find all Go files" |}.
Proof. vm_compute. reflexivity. Qed.

Example ex_fields : Fields "  nonexistent   --flag " = ["nonexistent"; "--flag"].
Proof. vm_compute. reflexivity. Qed.

Example ex_nf1 : parseNotFoundCommand ("sh: ss: command not found" ++ nl) "ss -tuln" = "ss".
Proof. vm_compute. reflexivity. Qed.
Example ex_nf2 : parseNotFoundCommand ("bash: line 1: htop: command not found" ++ nl) "htop" = "htop".
Proof. vm_compute. reflexivity. Qed.
Example ex_nf3 : parseNotFoundCommand ("zsh: command not found: rg" ++ nl) "rg foo" = "rg".
Proof. vm_compute. reflexivity. Qed.
Example ex_nf4 : parseNotFoundCommand ("some unexpected error" ++ nl) "nonexistent --flag" = "nonexistent".
Proof. vm_compute. reflexivity. Qed.
Example ex_nf5 : parseNotFoundCommand ("sh: foo: not found" ++ nl) "bar baz" = "foo".
Proof. vm_compute. reflexivity. Qed.
Example ex_nf6 : parseNotFoundCommand ("sh: 1: foo: not found" ++ nl) "bar baz" = "bar".
Proof. vm_compute. reflexivity. Qed.

Example ex_h1 : extended_line ": 1700000000:0;ls -la" = true.
Proof. vm_compute. reflexivity. Qed.
Example ex_h2 : extended_line ": 1700000000:;ls -la" = false.
Proof. vm_compute. reflexivity. Qed.
Example ex_h3 :
  addToShellHistory "/bin/zsh" "/tmp/h" "/root" 1700000005 (fun _ => true) "git status"
    {[ "/tmp/h" := ": 1700000000:0;ls -la" ++ nl ]} !! "/tmp/h"
  = Some (": 1700000000:0;ls -la" ++ nl ++ ": 1700000005:0;git status" ++ nl).
Proof. vm_compute. reflexivity. Qed.
Example ex_h4 : shellHistoryFile "" "/root" "/bin/zsh" = "/root/.zsh_history".
Proof. vm_compute. reflexivity. Qed.
Example ex_h5 : shellHistoryFile "" "/root" "/bin/fish" = "".
Proof. vm_compute. reflexivity. Qed.

(** ** Byte strings *)

Lemma append_cons (c : ascii) (s t : string) :
  String c s ++ t = String c (s ++ t).
Proof. reflexivity. Qed.

Lemma append_nil_r (s : string) : s ++ "" = s.
Proof.
  induction s as [|c s IH]; [reflexivity|].
  rewrite append_cons, IH. reflexivity.
Qed.

Lemma append_assoc (s t u : string) : (s ++ t) ++ u = s ++ t ++ u.
Proof.
  induction s as [|c s IH]; [reflexivity|].
  rewrite !append_cons, IH. reflexivity.
Qed.

Lemma length_append (s t : string) :
  String.length (s ++ t) = (String.length s + String.length t)%nat.
Proof.
  induction s as [|c s IH]; [reflexivity|].
  rewrite append_cons. cbn. now rewrite IH.
Qed.

Lemma take_string_append (w s : string) :
  take_string (String.length (w ++ s) - String.length s) (w ++ s) = w.
Proof.
  rewrite length_append.
  replace (String.length w + String.length s - String.length s)%nat
    with (String.length w) by lia.
  induction w as [|c w IH]; [now destruct s|].
  rewrite append_cons. cbn. now rewrite IH.
Qed.

Lemma drop_string_append (w s : string) :
  drop_string (String.length w) (w ++ s) = s.
Proof.
  induction w as [|c w IH]; [reflexivity|].
  rewrite append_cons. cbn. apply IH.
Qed.

Lemma HasPrefix_append (p r : string) : HasPrefix (p ++ r) p = true.
Proof.
  induction p as [|c p IH]; [reflexivity|].
  rewrite append_cons. cbn. now rewrite Ascii.eqb_refl.
Qed.

Lemma HasPrefix_iff (s p : string) :
  HasPrefix s p = true <-> exists r, s = p ++ r.
Proof.
  split.
  - revert s. induction p as [|c p IH]; intros s H.
    + now exists s.
    + destruct s as [|b s]; [discriminate|]. cbn in H.
      destruct (Ascii.eqb_spec c b) as [->|]; [|discriminate].
      destruct (IH _ H) as [r ->]. now exists r.
  - intros [r ->]. apply HasPrefix_append.
Qed.

Lemma rev_string_append (s t : string) :
  rev_string (s ++ t) = rev_string t ++ rev_string s.
Proof.
  induction s as [|c s IH].
  - cbn. now rewrite append_nil_r.
  - rewrite append_cons. cbn. now rewrite IH, append_assoc.
Qed.

Lemma rev_string_involutive (s : string) : rev_string (rev_string s) = s.
Proof.
  induction s as [|c s IH]; [reflexivity|].
  cbn. rewrite rev_string_append, IH. reflexivity.
Qed.

Lemma HasSuffix_iff (s suffix : string) :
  HasSuffix s suffix = true <-> exists r, s = r ++ suffix.
Proof.
  unfold HasSuffix. rewrite HasPrefix_iff. split.
  - intros [r H]. exists (rev_string r).
    rewrite <- (rev_string_involutive s), H, rev_string_append.
    now rewrite rev_string_involutive.
  - intros [r ->]. exists (rev_string r). apply rev_string_append.
Qed.

Lemma parse_line_command (result : Result) (line rest : string) :
  TrimSpace line = "COMMAND:" ++ rest ->
  Command (parse_line result line) = TrimSpace rest.
Proof.
  intros H. unfold parse_line. rewrite H. reflexivity.
Qed.

Lemma parse_line_explanation (result : Result) (line rest : string) :
  TrimSpace line = "EXPLANATION:" ++ rest ->
  Explanation (parse_line result line) = TrimSpace rest.
Proof.
  intros H. unfold parse_line. rewrite H. reflexivity.
Qed.

Lemma parse_line_keeps_command (result : Result) (line : string) :
  is_command_line line = false ->
  Command (parse_line result line) = Command result.
Proof.
  unfold is_command_line, parse_line. intros ->.
  destruct (HasPrefix (TrimSpace line) "EXPLANATION:"); reflexivity.
Qed.

Lemma parse_line_keeps_explanation (result : Result) (line : string) :
  is_explanation_line line = false ->
  Explanation (parse_line result line) = Explanation result.
Proof.
  unfold is_explanation_line, parse_line. intros ->.
  destruct (HasPrefix (TrimSpace line) "COMMAND:"); reflexivity.
Qed.

Lemma parse_line_unmatched (result : Result) (line : string) :
  is_command_line line || is_explanation_line line = false ->
  parse_line result line = result.
Proof.
  unfold is_command_line, is_explanation_line, parse_line.
  intros H. apply orb_false_elim in H as [-> ->]. reflexivity.
Qed.

Lemma parse_lines_keep_command (lines : list string) (result : Result) :
  Forall (fun l => is_command_line l = false) lines ->
  Command (parse_lines lines result) = Command result.
Proof.
  intros H. revert result.
  induction H as [|l ls Hl _ IH]; intros result; [reflexivity|].
  cbn. unfold parse_lines in IH. rewrite IH.
  now apply parse_line_keeps_command.
Qed.

Lemma parse_lines_keep_explanation (lines : list string) (result : Result) :
  Forall (fun l => is_explanation_line l = false) lines ->
  Explanation (parse_lines lines result) = Explanation result.
Proof.
  intros H. revert result.
  induction H as [|l ls Hl _ IH]; intros result; [reflexivity|].
  cbn. unfold parse_lines in IH. rewrite IH.
  now apply parse_line_keeps_explanation.
Qed.

Lemma parse_lines_filter (lines : list string) (result : Result) :
  parse_lines lines result
  = parse_lines
      (List.filter (fun l => is_command_line l || is_explanation_line l) lines)
      result.
Proof.
  revert result. induction lines as [|l ls IH]; intros result; [reflexivity|].
  cbn [List.filter].
  destruct (is_command_line l || is_explanation_line l) eqn:E.
  - cbn. apply IH.
  - cbn. rewrite (parse_line_unmatched _ _ E). apply IH.
Qed.

(** C4: the command is the trimmed text after [COMMAND:] on the last line
    whose trimmed form starts with that prefix, the explanation likewise
    for [EXPLANATION:], and the lines that start with neither prefix can be
    dropped from the response without changing the result. *)
Theorem ParseResponse_last_occurrence (response : string) :
  (forall pre line post rest,
      SplitLines response = (pre ++ line :: post)%list ->
      TrimSpace line = "COMMAND:" ++ rest ->
      Forall (fun l => is_command_line l = false) post ->
      Command (ParseResponse response) = TrimSpace rest)
  /\ (forall pre line post rest,
      SplitLines response = (pre ++ line :: post)%list ->
      TrimSpace line = "EXPLANATION:" ++ rest ->
      Forall (fun l => is_explanation_line l = false) post ->
      Explanation (ParseResponse response) = TrimSpace rest)
  /\ ParseResponse response
     = parse_lines
         (List.filter (fun l => is_command_line l || is_explanation_line l)
            (SplitLines response))
         empty_Result.
Proof.
  unfold ParseResponse. repeat split.
  - intros pre line post rest -> Hline Hpost.
    unfold parse_lines. rewrite fold_left_app. cbn [fold_left].
    fold (parse_lines post). rewrite parse_lines_keep_command by assumption.
    now apply parse_line_command.
  - intros pre line post rest -> Hline Hpost.
    unfold parse_lines. rewrite fold_left_app. cbn [fold_left].
    fold (parse_lines post). rewrite parse_lines_keep_explanation by assumption.
    now apply parse_line_explanation.
  - apply parse_lines_filter.
Qed.

(** C4 on a response with two [COMMAND:] lines and unmatched lines. *)
Lemma ParseResponse_last_occurrence_witness :
  let response :=
    "COMMAND: rm x" ++ nl ++ "note" ++ nl ++ "  COMMAND:  ls -la  " ++ nl
    ++ "EXPLANATION: List files " ++ nl ++ "bye" in
  Command (ParseResponse response) = "ls -la"
  /\ Explanation (ParseResponse response) = "List files".
Proof.
  intros response. split.
  - apply (proj1 (ParseResponse_last_occurrence response)
             ["COMMAND: rm x"; "note"] "  COMMAND:  ls -la  "
             ["EXPLANATION: List files "; "bye"] "  ls -la").
    + vm_compute. reflexivity.
    + vm_compute. reflexivity.
    + repeat constructor.
  - apply (proj1 (proj2 (ParseResponse_last_occurrence response))
             ["COMMAND: rm x"; "note"; "  COMMAND:  ls -la  "]
             "EXPLANATION: List files " ["bye"] " List files").
    + vm_compute. reflexivity.
    + vm_compute. reflexivity.
    + repeat constructor.
Defined.

(** C9, as stated, fails: a response without any [COMMAND:] line can still
    carry an explanation, so its [Explanation] field is not empty. *)
Lemma ParseResponse_explanation_without_command :
  ~ (forall response,
        Forall (fun l => is_command_line l = false) (SplitLines response) ->
        Command (ParseResponse response) = ""
        /\ Explanation (ParseResponse response) = "").
Proof.
  intros H. specialize (H "EXPLANATION: hi").
  assert (Hno : Forall (fun l => is_command_line l = false)
                  (SplitLines "EXPLANATION: hi")).
  { repeat constructor. }
  destruct (H Hno) as [_ Hexp]. vm_compute in Hexp. discriminate Hexp.
Qed.

(** C9, amended: [ParseResponse] is total; without a [COMMAND:] line the
    command is empty, without an [EXPLANATION:] line the explanation is
    empty, and a response with neither kind of line (the empty response
    among them) gives the empty result. *)
Theorem ParseResponse_no_matching_line (response : string) :
  (Forall (fun l => is_command_line l = false) (SplitLines response) ->
   Command (ParseResponse response) = "")
  /\ (Forall (fun l => is_explanation_line l = false) (SplitLines response) ->
      Explanation (ParseResponse response) = "")
  /\ (Forall (fun l => is_command_line l || is_explanation_line l = false)
        (SplitLines response) ->
      ParseResponse response = empty_Result)
  /\ ParseResponse "" = empty_Result.
Proof.
  unfold ParseResponse. repeat split.
  - intros H. now rewrite parse_lines_keep_command.
  - intros H. now rewrite parse_lines_keep_explanation.
  - intros H. fold empty_Result. generalize empty_Result as r.
    induction H as [|l ls Hl _ IH]; intros r; [reflexivity|].
    cbn. rewrite (parse_line_unmatched _ _ Hl). apply IH.
Qed.

(** C9, amended, on three small responses. *)
Lemma ParseResponse_no_matching_line_witness :
  Command (ParseResponse ("EXPLANATION: hi" ++ nl ++ "there")) = ""
  /\ Explanation (ParseResponse ("COMMAND: ls" ++ nl ++ "there")) = ""
  /\ ParseResponse ("hello" ++ nl ++ " world ") = empty_Result.
Proof.
  split; [|split].
  - apply (proj1 (ParseResponse_no_matching_line _)). repeat constructor.
  - apply (proj1 (proj2 (ParseResponse_no_matching_line _))).
    repeat constructor.
  - apply (proj1 (proj2 (proj2 (ParseResponse_no_matching_line _)))).
    repeat constructor.
Defined.

(** C1: [ParseResponse] of [ui.go] has no backtick normalisation; on the
    three inputs of [TestParseResponseStripsBackticks] the fences stay in
    the command, where the test wants the bare command. *)
Theorem ParseResponse_keeps_backticks :
  Command (ParseResponse ("COMMAND: `ls -la`" ++ nl ++ "EXPLANATION: List files"))
  = "`ls -la`"
  /\ Command (ParseResponse ("COMMAND: ```ls -la```" ++ nl ++ "EXPLANATION: List files"))
     = "```ls -la```"
  /\ Command
       (ParseResponse
          ("COMMAND: `gh api -X GET /repos/owner/repo/actions" ++ nl
           ++ "EXPLANATION: Get actions"))
     = "`gh api -X GET /repos/owner/repo/actions"
  /\ Command (ParseResponse ("COMMAND: ls -la" ++ nl ++ "EXPLANATION: List files"))
     = "ls -la".
Proof. vm_compute. repeat split. Qed.

(** ** Command executor *)

(** C8: the install hint by platform: Homebrew on macOS; on Linux the first
    of [apt], [dnf], [pacman] found on the search path, else the generic
    message; the generic message on every other platform. *)
Theorem installSuggestion_by_platform
    (GOOS : string) (LookPath : string -> bool) (name : string) :
  let generic := "Install " ++ name ++ " using your system package manager" in
  (GOOS = "darwin" ->
   installSuggestion GOOS LookPath name = "Install with: brew install " ++ name)
  /\ (GOOS = "linux" -> LookPath "apt" = true ->
      installSuggestion GOOS LookPath name
      = "Install with: sudo apt install " ++ name)
  /\ (GOOS = "linux" -> LookPath "apt" = false -> LookPath "dnf" = true ->
      installSuggestion GOOS LookPath name
      = "Install with: sudo dnf install " ++ name)
  /\ (GOOS = "linux" -> LookPath "apt" = false -> LookPath "dnf" = false ->
      LookPath "pacman" = true ->
      installSuggestion GOOS LookPath name
      = "Install with: sudo pacman -S " ++ name)
  /\ (GOOS = "linux" -> LookPath "apt" = false -> LookPath "dnf" = false ->
      LookPath "pacman" = false ->
      installSuggestion GOOS LookPath name = generic)
  /\ (GOOS <> "darwin" -> GOOS <> "linux" ->
      installSuggestion GOOS LookPath name = generic).
Proof.
  intros generic. unfold installSuggestion. repeat split.
  - intros ->. reflexivity.
  - intros -> ->. reflexivity.
  - intros -> -> ->. reflexivity.
  - intros -> -> -> ->. reflexivity.
  - intros -> -> -> ->. reflexivity.
  - intros Hd Hl.
    apply String.eqb_neq in Hd. apply String.eqb_neq in Hl.
    rewrite Hd, Hl. reflexivity.
Qed.

(** C8 on macOS, on Linux with each package manager, and on Windows. *)
Lemma installSuggestion_by_platform_witness :
  installSuggestion "darwin" (fun _ => true) "rg"
  = "Install with: brew install rg"
  /\ installSuggestion "linux" (fun _ => true) "rg"
     = "Install with: sudo apt install rg"
  /\ installSuggestion "linux" (fun p => String.eqb p "dnf" || String.eqb p "pacman") "rg"
     = "Install with: sudo dnf install rg"
  /\ installSuggestion "linux" (fun p => String.eqb p "pacman") "rg"
     = "Install with: sudo pacman -S rg"
  /\ installSuggestion "linux" (fun _ => false) "rg"
     = "Install rg using your system package manager"
  /\ installSuggestion "windows" (fun _ => true) "rg"
     = "Install rg using your system package manager".
Proof.
  refine (conj _ (conj _ (conj _ (conj _ (conj _ _))))).
  - apply (installSuggestion_by_platform "darwin" (fun _ => true) "rg").
    reflexivity.
  - destruct (installSuggestion_by_platform "linux" (fun _ => true) "rg")
      as (_ & H & _).
    apply H; reflexivity.
  - destruct (installSuggestion_by_platform "linux"
                (fun p => String.eqb p "dnf" || String.eqb p "pacman") "rg")
      as (_ & _ & H & _).
    apply H; reflexivity.
  - destruct (installSuggestion_by_platform "linux"
                (fun p => String.eqb p "pacman") "rg") as (_ & _ & _ & H & _).
    apply H; reflexivity.
  - destruct (installSuggestion_by_platform "linux" (fun _ => false) "rg")
      as (_ & _ & _ & _ & H & _).
    apply H; reflexivity.
  - destruct (installSuggestion_by_platform "windows" (fun _ => true) "rg")
      as (_ & _ & _ & _ & _ & H).
    apply H; discriminate.
Defined.

Lemma space_marks_token_byte (c : ascii) (s : string) :
  token_byte c = true -> space_marks (String c s) = Some c :: space_marks s.
Proof.
  unfold token_byte. intros H. apply andb_prop in H as [Hlt Hsp].
  apply negb_true_iff in Hsp. apply N.ltb_lt in Hlt.
  assert (H2 : forall c2, space2 c c2 = false).
  { intros c2. unfold space2.
    destruct (N.eqb_spec (byte_of c) 194); [lia|reflexivity]. }
  assert (H3 : forall c2 c3, space3 c c2 c3 = false).
  { intros c2 c3. unfold space3. cbv zeta.
    destruct (N.eqb_spec (byte_of c) 225); [lia|].
    destruct (N.eqb_spec (byte_of c) 226); [lia|].
    destruct (N.eqb_spec (byte_of c) 227); [lia|]. reflexivity. }
  cbn. rewrite Hsp. destruct s as [|c2 [|c3 s]]; [reflexivity| |].
  - now rewrite H2.
  - now rewrite H2, H3.
Qed.

Lemma space_marks_blanks (ws s : string) :
  all_string asciiSpace ws = true ->
  fields_of (space_marks (ws ++ s)) = fields_of (space_marks s).
Proof.
  induction ws as [|c ws IH]; [reflexivity|].
  cbn. intros H. apply andb_prop in H as [Hc Hws].
  rewrite append_cons. cbn. rewrite Hc. cbn. now apply IH.
Qed.

Lemma fields_of_token (tok rest : string) :
  tok <> "" -> all_string token_byte tok = true ->
  (rest = "" \/ exists c r, rest = String c r /\ asciiSpace c = true) ->
  exists more, fields_of (space_marks (tok ++ rest)) = tok :: more.
Proof.
  intros Hne Htok Hrest.
  induction tok as [|c tok IH]; [congruence|]. clear Hne.
  cbn in Htok. apply andb_prop in Htok as [Hc Htok].
  rewrite append_cons, (space_marks_token_byte _ _ Hc).
  destruct tok as [|c' tok].
  - change ("" ++ rest) with rest.
    destruct Hrest as [-> | (d & r & -> & Hd)].
    + now exists [].
    + cbn. rewrite Hd. cbn. eauto.
  - destruct IH as [more IH]; [discriminate | assumption |].
    cbn in Htok. apply andb_prop in Htok as [Hc' _].
    rewrite append_cons in IH |- *.
    rewrite (space_marks_token_byte _ _ Hc') in IH |- *.
    cbn [fields_of] in IH |- *.
    cbn [fields_of]. rewrite IH. eauto.
Qed.

(** The first field of a command: after the leading blanks, the bytes up
    to the next blank (for a first word made of ASCII bytes). *)
Lemma Fields_first_token (ws tok rest : string) :
  all_string asciiSpace ws = true ->
  tok <> "" -> all_string token_byte tok = true ->
  (rest = "" \/ exists c r, rest = String c r /\ asciiSpace c = true) ->
  exists more, Fields (ws ++ tok ++ rest) = tok :: more.
Proof.
  intros Hws Hne Htok Hrest. unfold Fields.
  rewrite space_marks_blanks by assumption.
  now apply fields_of_token.
Qed.

(** A command of ASCII blanks only has no field. *)
Lemma Fields_blank (ws : string) :
  all_string asciiSpace ws = true -> Fields ws = [].
Proof.
  intros H. unfold Fields.
  rewrite <- (append_nil_r ws). now rewrite space_marks_blanks.
Qed.

Lemma no_LF_cons (c : ascii) (s : string) :
  no_LF (String c s) = true -> Ascii.eqb c LF = false /\ no_LF s = true.
Proof.
  intros H. apply andb_prop in H as [Hc Hs].
  apply negb_true_iff in Hc. auto.
Qed.

Lemma ReadString_line (line rest : string) :
  no_LF line = true -> ReadString (line ++ nl ++ rest) = (line ++ nl, None).
Proof.
  induction line as [|c line IH]; intros H.
  - change (ReadString (String LF rest) = (nl, None)).
    cbn [ReadString]. now rewrite Ascii.eqb_refl.
  - apply no_LF_cons in H as [Hc Hline].
    rewrite !append_cons. cbn [ReadString]. rewrite Hc.
    now rewrite (IH Hline).
Qed.

Lemma ReadString_EOF (s : string) :
  no_LF s = true -> ReadString s = (s, Some EOF).
Proof.
  induction s as [|c s IH]; intros H; [reflexivity|].
  apply no_LF_cons in H as [Hc Hs].
  cbn [ReadString]. rewrite Hc. now rewrite (IH Hs).
Qed.

Section Executor.
Variable GOOS : string.
Variable LookPath : string -> bool.
Variable hintStyle_Render : string -> string.
Variable sh_c : string -> Child.
Variable unicode_lower : string -> string.

Local Abbreviation run_command :=
  (RunCommand GOOS LookPath hintStyle_Render sh_c).
Local Abbreviation confirm_and_run :=
  (ConfirmAndRun GOOS LookPath hintStyle_Render sh_c unicode_lower).
Local Abbreviation hint := (hint_text GOOS LookPath hintStyle_Render).

Lemma hint_for_cases (err : option error) (buf command : string) :
  hint_for GOOS LookPath hintStyle_Render err buf command = ""
  \/ (exists e, err = Some e /\ As_ExitError e = Some 127%Z)
     /\ parseNotFoundCommand buf command <> ""
     /\ hint_for GOOS LookPath hintStyle_Render err buf command
        = hint (parseNotFoundCommand buf command).
Proof.
  unfold hint_for.
  destruct err as [e|]; [|now left].
  destruct (As_ExitError e) as [code|] eqn:Ecode; [|now left].
  destruct (code =? 127)%Z eqn:E127; [|now left].
  apply Z.eqb_eq in E127. subst code.
  destruct (String.eqb (parseNotFoundCommand buf command) "") eqn:Ename.
  - now left.
  - right. apply String.eqb_neq in Ename. cbn. eauto.
Qed.

(** C7: [RunCommand] returns the error of [cmd.Run] as it is, whatever
    the command does.  The hint goes to the error stream, after the
    child's own output, and nowhere else: standard output carries the
    blank line and the child's output only.  Without an exit status 127
    nothing is added to the error stream at all. *)
Theorem RunCommand_returns_error_unchanged (command : string) :
  let child := sh_c command in
  let o := run_command command in
  ret o = child_err child
  /\ stdout o = nl ++ child_stdout child
  /\ ran o = [command]
  /\ (stderr o = child_stderr child
      \/ stderr o
         = child_stderr child
           ++ hint (parseNotFoundCommand (child_stderr child) command))
  /\ ((forall e, child_err child = Some e -> As_ExitError e <> Some 127%Z) ->
      stderr o = child_stderr child).
Proof.
  intros child o. subst o. unfold RunCommand. cbn.
  fold child. repeat split.
  - destruct (hint_for_cases (child_err child) (child_stderr child) command)
      as [-> | (_ & _ & ->)].
    + left. apply append_nil_r.
    + now right.
  - intros Hno.
    destruct (hint_for_cases (child_err child) (child_stderr child) command)
      as [-> | ((e & He & H127) & _)].
    + apply append_nil_r.
    + now destruct (Hno e He).
Qed.

(** C10: exit status 127, an error text that matches neither pattern and
    a command without any field: [parseNotFoundCommand] gives the empty
    name, [RunCommand] writes no hint and still returns the error. *)
Theorem RunCommand_no_hint_without_name (command : string) (e : error) :
  let child := sh_c command in
  child_err child = Some e ->
  As_ExitError e = Some 127%Z ->
  FindStringSubmatch notFoundRe (child_stderr child) = [] ->
  FindStringSubmatch notFoundZshRe (child_stderr child) = [] ->
  Fields command = [] ->
  parseNotFoundCommand (child_stderr child) command = ""
  /\ stderr (run_command command) = child_stderr child
  /\ ret (run_command command) = Some e.
Proof.
  intros child Herr H127 Hsh Hzsh Hfields.
  assert (Hname : parseNotFoundCommand (child_stderr child) command = "").
  { unfold parseNotFoundCommand. rewrite Hsh, Hzsh, Hfields. reflexivity. }
  unfold RunCommand. cbn. fold child.
  unfold hint_for. rewrite Herr, H127, Hname. cbn.
  rewrite append_nil_r. auto.
Qed.

(** C6: once a line has been read, the command runs exactly when the
    line, lowercased and trimmed, is [y] or [yes]; any other line runs
    nothing, returns nil and writes nothing but the prompt. *)
Theorem ConfirmAndRun_runs_iff_yes (command stdin line : string) :
  ReadString stdin = (line, None) ->
  let answer := TrimSpace (ToLower unicode_lower line) in
  let o := confirm_and_run command stdin in
  (ran o = [command] <-> answer = "y" \/ answer = "yes")
  /\ (answer = "y" \/ answer = "yes" ->
      ret o = ret (run_command command))
  /\ (~ (answer = "y" \/ answer = "yes") ->
      ran o = [] /\ ret o = None
      /\ stdout o = "  Run this command? [y/N] " /\ stderr o = "").
Proof.
  intros Hread answer o. subst o.
  unfold ConfirmAndRun. rewrite Hread. fold answer.
  destruct (String.eqb_spec answer "y") as [Hy|Hy];
    destruct (String.eqb_spec answer "yes") as [Hyes|Hyes]; cbn;
    intuition (try discriminate; try congruence; auto).
Qed.

(** When standard input ends before a line feed, nothing runs and the
    read error comes back wrapped. *)
Lemma ConfirmAndRun_read_error (command stdin line : string) (e : error) :
  ReadString stdin = (line, Some e) ->
  ran (confirm_and_run command stdin) = []
  /\ ret (confirm_and_run command stdin) = Some (Errorf "reading input: " e).
Proof.
  intros Hread. unfold ConfirmAndRun. rewrite Hread. cbn. auto.
Qed.

End Executor.

(** C7 on the example host: a missing command, a success, a failure. *)
Lemma RunCommand_returns_error_unchanged_witness :
  ret (Demo.RunCommand "rg foo") = Some (ExitError 127)
  /\ ret (Demo.RunCommand "true") = None
  /\ ret (Demo.RunCommand "false") = Some (ExitError 1)
  /\ stderr (Demo.RunCommand "false") = "".
Proof.
  refine (conj _ (conj _ (conj _ _))).
  - apply (proj1 (RunCommand_returns_error_unchanged
                    Demo.GOOS Demo.LookPath Demo.Render Demo.sh_c "rg foo")).
  - apply (proj1 (RunCommand_returns_error_unchanged
                    Demo.GOOS Demo.LookPath Demo.Render Demo.sh_c "true")).
  - apply (proj1 (RunCommand_returns_error_unchanged
                    Demo.GOOS Demo.LookPath Demo.Render Demo.sh_c "false")).
  - destruct (RunCommand_returns_error_unchanged
                Demo.GOOS Demo.LookPath Demo.Render Demo.sh_c "false")
      as (_ & _ & _ & _ & H).
    apply H. intros e [= <-]. discriminate.
Defined.

(** C10 on the example host, for a command of three blanks. *)
Lemma RunCommand_no_hint_without_name_witness :
  parseNotFoundCommand (child_stderr (Demo.sh_c "   ")) "   " = ""
  /\ stderr (Demo.RunCommand "   ") = child_stderr (Demo.sh_c "   ")
  /\ ret (Demo.RunCommand "   ") = Some (ExitError 127).
Proof.
  apply (RunCommand_no_hint_without_name
           Demo.GOOS Demo.LookPath Demo.Render Demo.sh_c "   " (ExitError 127));
    vm_compute; reflexivity.
Defined.

(** C6 on the example host: a padded [Yes], an empty line and [no]. *)
Lemma ConfirmAndRun_runs_iff_yes_witness :
  ran (Demo.ConfirmAndRun "true" (" Yes " ++ nl ++ "more")) = ["true"]
  /\ ran (Demo.ConfirmAndRun "true" nl) = []
  /\ ret (Demo.ConfirmAndRun "true" ("no" ++ nl)) = None.
Proof.
  refine (conj _ (conj _ _)).
  - apply (proj1 (ConfirmAndRun_runs_iff_yes
                    Demo.GOOS Demo.LookPath Demo.Render Demo.sh_c
                    Demo.unicode_lower "true" (" Yes " ++ nl ++ "more")
                    (" Yes " ++ nl) eq_refl)).
    right. vm_compute. reflexivity.
  - destruct (ConfirmAndRun_runs_iff_yes
                Demo.GOOS Demo.LookPath Demo.Render Demo.sh_c
                Demo.unicode_lower "true" nl nl eq_refl) as (_ & _ & H).
    apply H. vm_compute. intros [H'|H']; discriminate H'.
  - destruct (ConfirmAndRun_runs_iff_yes
                Demo.GOOS Demo.LookPath Demo.Render Demo.sh_c
                Demo.unicode_lower "true" ("no" ++ nl) ("no" ++ nl) eq_refl)
      as (_ & _ & H).
    apply H. vm_compute. intros [H'|H']; discriminate H'.
Defined.

(** ** Shell history writer *)

Lemma zsh_bash_disjoint (shell : string) :
  HasSuffix shell "zsh" = true -> HasSuffix shell "bash" = true -> False.
Proof.
  unfold HasSuffix. generalize (rev_string shell) as r.
  intros r Hz Hb.
  apply HasPrefix_iff in Hz as [x ->]. apply HasPrefix_iff in Hb as [y Hb].
  cbv in Hb. discriminate Hb.
Qed.

(** C5: an override in [HISTFILE] is the history file whatever the shell;
    without one, a shell path ending in [zsh] or [bash] gives the file of
    that shell in the home directory; any other shell gives no file, and
    then adding to the history changes nothing. *)
Theorem shellHistoryFile_resolution (HISTFILE HOME shell : string) :
  (HISTFILE <> "" -> shellHistoryFile HISTFILE HOME shell = HISTFILE)
  /\ (HISTFILE = "" -> (exists dir, shell = dir ++ "zsh") ->
      shellHistoryFile HISTFILE HOME shell = HOME ++ "/.zsh_history")
  /\ (HISTFILE = "" -> (exists dir, shell = dir ++ "bash") ->
      shellHistoryFile HISTFILE HOME shell = HOME ++ "/.bash_history")
  /\ (HISTFILE = "" ->
      ~ (exists dir, shell = dir ++ "zsh") ->
      ~ (exists dir, shell = dir ++ "bash") ->
      shellHistoryFile HISTFILE HOME shell = ""
      /\ forall now openable command (fs : gmap string string),
           addToShellHistory shell HISTFILE HOME now openable command fs = fs).
Proof.
  unfold addToShellHistory, shellHistoryFile.
  refine (conj _ (conj _ (conj _ _))).
  - intros H. apply String.eqb_neq in H. now rewrite H.
  - intros -> H. apply HasSuffix_iff in H. now rewrite H.
  - intros -> H. apply HasSuffix_iff in H.
    destruct (HasSuffix shell "zsh") eqn:Hz.
    + destruct (zsh_bash_disjoint shell Hz H).
    + now rewrite H.
  - intros -> Hz Hb. rewrite <- HasSuffix_iff in Hz, Hb.
    apply not_true_is_false in Hz, Hb. rewrite Hz, Hb. cbn. auto.
Qed.

(** C5 with an override, for zsh, for bash and for fish. *)
Lemma shellHistoryFile_resolution_witness :
  shellHistoryFile "/tmp/my_history" "/root" "/bin/fish" = "/tmp/my_history"
  /\ shellHistoryFile "" "/root" "/bin/zsh" = "/root/.zsh_history"
  /\ shellHistoryFile "" "/root" "/usr/bin/bash" = "/root/.bash_history"
  /\ shellHistoryFile "" "/root" "/bin/fish" = ""
  /\ addToShellHistory "/bin/fish" "" "/root" 1700000000 (fun _ => true)
       "ls" {[ "/root/.zsh_history" := "pwd" ]}
     = {[ "/root/.zsh_history" := "pwd" ]}.
Proof.
  assert (Hfish : forall suffix,
             HasSuffix "/bin/fish" suffix = false ->
             ~ (exists dir, "/bin/fish" = dir ++ suffix)).
  { intros suffix Hf H. apply HasSuffix_iff in H. congruence. }
  refine (conj _ (conj _ (conj _ _))).
  - apply (shellHistoryFile_resolution "/tmp/my_history" "/root" "/bin/fish").
    discriminate.
  - destruct (shellHistoryFile_resolution "" "/root" "/bin/zsh")
      as (_ & H & _).
    apply H; [reflexivity|]. now exists "/bin/".
  - destruct (shellHistoryFile_resolution "" "/root" "/usr/bin/bash")
      as (_ & _ & H & _).
    apply H; [reflexivity|]. now exists "/usr/bin/".
  - destruct (shellHistoryFile_resolution "" "/root" "/bin/fish")
      as (_ & _ & _ & H).
    destruct H as [H1 H2]; [reflexivity | now apply Hfish .. |].
    split; [exact H1 | apply H2].
Defined.

Lemma skip_digits_split (s : string) :
  exists ds, all_string is_digit ds = true /\ s = ds ++ skip_digits s.
Proof.
  induction s as [|c s (ds & Hds & IH)]; [now exists ""|].
  cbn. destruct (is_digit c) eqn:Hc.
  - exists (String c ds). cbn. rewrite Hc, Hds. split; [reflexivity|].
    rewrite append_cons. now rewrite <- IH.
  - now exists "".
Qed.

Lemma skip_digits_append (ds : string) (sep : ascii) (r : string) :
  all_string is_digit ds = true -> is_digit sep = false ->
  skip_digits (ds ++ String sep r) = String sep r.
Proof.
  intros Hds Hsep. induction ds as [|c ds IH].
  - change (skip_digits (String sep r) = String sep r).
    cbn. now rewrite Hsep.
  - cbn in Hds. apply andb_prop in Hds as [Hc Hds].
    rewrite append_cons. cbn. rewrite Hc. now apply IH.
Qed.

Lemma digits_then_iff (sep : ascii) (s r : string) :
  is_digit sep = false ->
  digits_then sep s = Some r
  <-> exists ds, ds <> "" /\ all_string is_digit ds = true
                 /\ s = ds ++ String sep r.
Proof.
  intros Hsep. unfold digits_then. split.
  - destruct s as [|c s]; [discriminate|].
    destruct (is_digit c) eqn:Hc; [|discriminate].
    destruct (skip_digits_split (String c s)) as (ds & Hds & Hs).
    destruct (skip_digits (String c s)) as [|d r'] eqn:Hskip; [discriminate|].
    destruct (Ascii.eqb_spec d sep) as [->|]; [|discriminate].
    intros [= ->]. exists ds. repeat split; try assumption.
    intros ->. cbn in Hs. injection Hs as -> _. congruence.
  - intros (ds & Hne & Hds & ->).
    destruct ds as [|c ds]; [congruence|].
    rewrite append_cons.
    rewrite <- (append_cons c ds), (skip_digits_append _ _ _ Hds Hsep).
    cbn in Hds. apply andb_prop in Hds as [-> _].
    now rewrite Ascii.eqb_refl.
Qed.

Lemma extended_line_iff (line : string) :
  extended_line line = true <-> extended_form line.
Proof.
  unfold extended_line, extended_form. split.
  - destruct line as [|c1 [|c2 r]]; try discriminate.
    destruct (Ascii.eqb_spec c1 ":") as [->|]; [|discriminate].
    destruct (Ascii.eqb_spec c2 " ") as [->|]; [|discriminate].
    cbn [andb].
    destruct (digits_then ":" r) as [r'|] eqn:H1; [|discriminate].
    destruct (digits_then ";" r') as [rest|] eqn:H2; [|discriminate].
    intros _.
    apply digits_then_iff in H1 as (d1 & ? & ? & ->); [|reflexivity].
    apply digits_then_iff in H2 as (d2 & ? & ? & ->); [|reflexivity].
    exists d1, d2, rest. repeat split; assumption.
  - intros (d1 & d2 & rest & Hn1 & Hn2 & Hd1 & Hd2 & ->).
    assert (H1 : digits_then ":" (d1 ++ String ":" (d2 ++ String ";" rest))
                 = Some (d2 ++ String ";" rest)).
    { apply digits_then_iff; [reflexivity|]. now exists d1. }
    assert (H2 : digits_then ";" (d2 ++ String ";" rest) = Some rest).
    { apply digits_then_iff; [reflexivity|]. now exists d2. }
    change (": " ++ d1 ++ ":" ++ d2 ++ ";" ++ rest)
      with (String ":" (String " " (d1 ++ String ":" (d2 ++ String ";" rest)))).
    cbn [Ascii.eqb Bool.eqb andb]. now rewrite H1, H2.
Qed.

Section HistoryAppend.
Variables SHELL HISTFILE HOME : string.
Variable now : Z.
Variable openable : string -> bool.

Local Abbreviation histFile := (shellHistoryFile HISTFILE HOME SHELL).
Local Abbreviation add := (addToShellHistory SHELL HISTFILE HOME now openable).

(** C2: a file is zsh-extended exactly when one of its lines has the
    extended form; a missing or empty file is plain.  Adding a command
    to an extended file appends the line with the epoch seconds and the
    duration 0, adding to a plain file appends the bare command; either
    way the old content is kept in front and no other file changes, and
    without a history file that can be opened nothing changes at all. *)
Theorem history_format_and_append
    (command : string) (fs : gmap string string) :
  (forall path,
      isZshExtendedHistory fs path = true
      <-> exists content line,
            fs !! path = Some content
            /\ In line (SplitLines content) /\ extended_form line)
  /\ (forall path,
        fs !! path = None \/ fs !! path = Some "" ->
        isZshExtendedHistory fs path = false)
  /\ (histFile <> "" -> openable histFile = true ->
      isZshExtendedHistory fs histFile = true ->
      add command fs !! histFile
      = Some (default "" (fs !! histFile)
              ++ ": " ++ Z_to_string now ++ ":0;" ++ command ++ nl))
  /\ (histFile <> "" -> openable histFile = true ->
      isZshExtendedHistory fs histFile = false ->
      add command fs !! histFile
      = Some (default "" (fs !! histFile) ++ command ++ nl))
  /\ (forall other, other <> histFile ->
        add command fs !! other = fs !! other)
  /\ (histFile = "" \/ openable histFile = false -> add command fs = fs).
Proof.
  refine (conj _ (conj _ (conj _ (conj _ (conj _ _))))).
  - intros path. unfold isZshExtendedHistory. split.
    + destruct (fs !! path) as [content|]; [|discriminate].
      intros H. apply existsb_exists in H as (line & Hin & Hline).
      exists content, line. rewrite <- extended_line_iff. auto.
    + intros (content & line & -> & Hin & Hline).
      apply existsb_exists. exists line.
      rewrite extended_line_iff. auto.
  - intros path [H|H]; unfold isZshExtendedHistory; now rewrite H.
  - intros Hne Hopen Hext. unfold addToShellHistory.
    apply String.eqb_neq in Hne. rewrite Hne, Hopen, Hext. cbn.
    now rewrite lookup_insert_eq.
  - intros Hne Hopen Hext. unfold addToShellHistory.
    apply String.eqb_neq in Hne. rewrite Hne, Hopen, Hext. cbn.
    now rewrite lookup_insert_eq.
  - intros other Hother. unfold addToShellHistory.
    destruct (String.eqb histFile ""); [reflexivity|].
    destruct (openable histFile); [|reflexivity].
    cbn. now rewrite lookup_insert_ne.
  - unfold addToShellHistory. intros [-> | H]; [reflexivity|].
    rewrite H. now destruct (String.eqb histFile "").
Qed.

End HistoryAppend.

(** C2 on an extended zsh history and on a plain bash history. *)
Lemma history_format_and_append_witness :
  let zsh : gmap string string :=
    {[ "/root/.zsh_history" := ": 1700000000:0;ls -la" ++ nl ]} in
  let bash : gmap string string := {[ "/root/.bash_history" := "ls" ++ nl ]} in
  isZshExtendedHistory zsh "/root/.zsh_history" = true
  /\ isZshExtendedHistory zsh "/root/.bash_history" = false
  /\ addToShellHistory "/bin/zsh" "" "/root" 1700000005 (fun _ => true)
       "git status" zsh !! "/root/.zsh_history"
     = Some (": 1700000000:0;ls -la" ++ nl
             ++ ": 1700000005:0;git status" ++ nl)
  /\ addToShellHistory "/bin/bash" "" "/root" 1700000005 (fun _ => true)
       "git status" bash !! "/root/.bash_history"
     = Some ("ls" ++ nl ++ "git status" ++ nl).
Proof.
  intros zsh bash.
  destruct (history_format_and_append "/bin/zsh" "" "/root" 1700000005
              (fun _ => true) "git status" zsh) as (H1 & H2 & H3 & _).
  destruct (history_format_and_append "/bin/bash" "" "/root" 1700000005
              (fun _ => true) "git status" bash) as (_ & _ & _ & H4 & _).
  refine (conj _ (conj _ (conj _ _))).
  - apply H1. exists (": 1700000000:0;ls -la" ++ nl), ": 1700000000:0;ls -la".
    split; [reflexivity|]. split; [left; reflexivity|].
    exists "1700000000", "0", "ls -la". repeat split; discriminate.
  - apply H2. left. reflexivity.
  - apply H3; [discriminate | reflexivity | reflexivity].
  - apply H4; [discriminate | reflexivity | reflexivity].
Defined.

(** ** The matcher against the declarative reading of a pattern *)

Lemma strip_prefix_iff (p s s' : string) :
  strip_prefix p s = Some s' <-> s = p ++ s'.
Proof.
  unfold strip_prefix. split.
  - destruct (HasPrefix s p) eqn:H; [|discriminate].
    apply HasPrefix_iff in H as [r ->].
    rewrite drop_string_append. now intros [= ->].
  - intros ->. now rewrite HasPrefix_append, drop_string_append.
Qed.

Section MatcherCorrect.
Context {R : Type}.

Lemma star_sound (p : ascii -> bool) (s : string)
    (k : string -> option R) (x : R) :
  star p s k = Some x ->
  exists w s', s = w ++ s' /\ all_string p w = true /\ k s' = Some x.
Proof.
  induction s as [|c s IH]; cbn.
  - intros H. now exists "", "".
  - destruct (p c) eqn:Hc.
    + destruct (star p s k) as [y|] eqn:Hs.
      * intros [= ->]. destruct (IH eq_refl) as (w & s' & -> & Hw & Hk).
        exists (String c w), s'. cbn. now rewrite Hc, Hw.
      * intros H. now exists "", (String c s).
    + intros H. now exists "", (String c s).
Qed.

Lemma star_complete (p : ascii -> bool) (w s' : string)
    (k : string -> option R) :
  all_string p w = true -> k s' <> None -> star p (w ++ s') k <> None.
Proof.
  intros Hw Hk. induction w as [|c w IH].
  - change (star p s' k <> None).
    destruct s' as [|c s']; [exact Hk|]. cbn.
    destruct (p c); [|exact Hk].
    now destruct (star p s' k).
  - cbn in Hw. apply andb_prop in Hw as [Hc Hw].
    rewrite append_cons. cbn. rewrite Hc.
    specialize (IH Hw). now destruct (star p (w ++ s') k).
Qed.

Lemma run_sound (r : re) :
  forall s cap (k : string -> option string -> option R) x,
    run r s cap k = Some x ->
    exists w s' cap',
      s = w ++ s' /\ matches r w cap cap' /\ k s' cap' = Some x.
Proof.
  induction r as [l|p|r1 IH1 r2 IH2|r1 IH1 r2 IH2|r1 IH1|p|r1 IH1];
    intros s cap k x; cbn.
  - destruct (strip_prefix l s) as [s'|] eqn:H; [|discriminate].
    apply strip_prefix_iff in H as ->. intros Hk.
    exists l, s', cap. done_matches.
  - destruct s as [|c s]; [discriminate|].
    destruct (p c) eqn:Hc; [|discriminate]. intros Hk.
    exists (String c ""), s, cap. done_matches.
  - intros H.
    apply IH1 in H as (w1 & s1 & cap1 & -> & Hm1 & H).
    apply IH2 in H as (w2 & s2 & cap2 & -> & Hm2 & H).
    exists (w1 ++ w2), s2, cap2. rewrite append_assoc.
    done_matches.
  - destruct (run r1 s cap k) as [y|] eqn:H1.
    + intros [= ->]. apply IH1 in H1 as (w & s' & cap' & -> & Hm & H).
      exists w, s', cap'. done_matches.
    + intros H. apply IH2 in H as (w & s' & cap' & -> & Hm & H).
      exists w, s', cap'. done_matches.
  - destruct (run r1 s cap k) as [y|] eqn:H1.
    + intros [= ->]. apply IH1 in H1 as (w & s' & cap' & -> & Hm & H).
      exists w, s', cap'. done_matches.
    + intros H. exists "", s, cap. done_matches.
  - intros H. apply star_sound in H as (w & s' & -> & Hw & H).
    exists w, s', cap. done_matches.
  - intros H. apply IH1 in H as (w & s' & cap' & -> & Hm & H).
    rewrite take_string_append in H.
    exists w, s', (Some w). done_matches.
Qed.

Lemma run_complete (r : re) (w : string) (cap cap' : option string) :
  matches r w cap cap' ->
  forall s' (k : string -> option string -> option R),
    k s' cap' <> None -> run r (w ++ s') cap k <> None.
Proof.
  induction 1 as [l cap|p c cap Hc|r1 r2 w1 w2 cap cap1 cap2 _ IH1 _ IH2
                 |r1 r2 w cap cap' _ IH|r1 r2 w cap cap' _ IH
                 |r w cap cap' _ IH|r cap|p w cap Hw|r w cap cap' _ IH];
    intros s' k Hk; cbn.
  - now rewrite (proj2 (strip_prefix_iff l (l ++ s') s') eq_refl).
  - rewrite append_cons. now rewrite Hc.
  - rewrite append_assoc. apply IH1. now apply IH2.
  - specialize (IH s' k Hk). now destruct (run r1 (w ++ s') cap k).
  - specialize (IH s' k Hk). now destruct (run r1 (w ++ s') cap k).
  - specialize (IH s' k Hk). now destruct (run r (w ++ s') cap k).
  - change (match run r s' cap k with Some x => Some x | None => k s' cap end
            <> None).
    now destruct (run r s' cap k).
  - now apply star_complete.
  - apply IH. now rewrite take_string_append.
Qed.

End MatcherCorrect.

Lemma match_here_sound (r : re) (s : string) (m : list string) :
  match_here r s = Some m ->
  exists w s' cap,
    s = w ++ s' /\ matches r w None cap
    /\ m = [w; match cap with Some c => c | None => "" end].
Proof.
  unfold match_here. intros H.
  apply run_sound in H as (w & s' & cap & -> & Hm & H).
  rewrite take_string_append in H. injection H as <-.
  now exists w, s', cap.
Qed.

Lemma match_here_complete (r : re) (w s' : string) (cap : option string) :
  matches r w None cap -> match_here r (w ++ s') <> None.
Proof.
  intros Hm. unfold match_here.
  now apply (run_complete r w None cap Hm s').
Qed.

(** A result of [FindStringSubmatch] is nil or a match inside the text,
    with group 1 in its second place. *)
Lemma FindStringSubmatch_sound (r : re) (s : string) :
  FindStringSubmatch r s = []
  \/ exists pre w post cap,
       s = pre ++ w ++ post /\ matches r w None cap
       /\ FindStringSubmatch r s
          = [w; match cap with Some c => c | None => "" end].
Proof.
  induction s as [|c s IH].
  - cbn. destruct (match_here r "") as [m|] eqn:H; [|now left].
    right. apply match_here_sound in H as (w & s' & cap & Hs & Hm & ->).
    now exists "", w, s', cap.
  - cbn. destruct (match_here r (String c s)) as [m|] eqn:H.
    + right. apply match_here_sound in H as (w & s' & cap & Hs & Hm & ->).
      now exists "", w, s', cap.
    + destruct IH as [IH | (pre & w & post & cap & -> & Hm & IH)];
        [now left|].
      right. exists (String c pre), w, post, cap. now rewrite IH.
Qed.

(** Where the text contains a match, [FindStringSubmatch] finds one. *)
Lemma FindStringSubmatch_complete (r : re) (pre w post : string)
    (cap : option string) :
  matches r w None cap -> FindStringSubmatch r (pre ++ w ++ post) <> [].
Proof.
  intros Hm. induction pre as [|c pre IH].
  - change (FindStringSubmatch r (w ++ post) <> []).
    pose proof (match_here_complete r w post cap Hm) as H.
    destruct (w ++ post) as [|c s] eqn:E; cbn;
      destruct (match_here r _) as [m|] eqn:Hh; try congruence;
      apply match_here_sound in Hh as (? & ? & ? & _ & _ & ->); discriminate.
  - rewrite append_cons. cbn.
    destruct (match_here r _) as [m|] eqn:Hh; [|exact IH].
    apply match_here_sound in Hh as (? & ? & ? & _ & _ & ->). discriminate.
Qed.

(** ** The two patterns of the executor *)

Lemma matches_Plus (p : ascii -> bool) (w : string) (cap : option string) :
  w <> "" -> all_string p w = true -> matches (Plus p) w cap cap.
Proof.
  destruct w as [|c w]; [congruence|]. intros _ H.
  cbn in H. apply andb_prop in H as [Hc Hw].
  change (String c w) with (String c "" ++ w).
  unfold Plus. eauto using matches.
Qed.

Lemma matches_Plus_inv (p : ascii -> bool) (w : string)
    (cap cap' : option string) :
  matches (Plus p) w cap cap' ->
  w <> "" /\ all_string p w = true /\ cap' = cap.
Proof.
  unfold Plus. intros H. inv_matches.
  change (String c "" ++ w2) with (String c w2). cbn.
  repeat split; [discriminate | now apply andb_true_intro].
Qed.

Lemma matches_Alt_Lit_inv (a b w : string) (cap cap' : option string) :
  matches (Alt (Lit a) (Lit b)) w cap cap' -> (w = a \/ w = b) /\ cap' = cap.
Proof. intros H. inv_matches; auto. Qed.

Lemma matches_Opt_Lit_inv (a w : string) (cap cap' : option string) :
  matches (Opt (Lit a)) w cap cap' -> (w = "" \/ w = a) /\ cap' = cap.
Proof. intros H. inv_matches; auto. Qed.

Lemma matches_line_inv (w : string) (cap cap' : option string) :
  matches
    (Opt (Cat (Lit "line ") (Cat (Plus perl_d) (Cat (Lit ":") (Star perl_s)))))
    w cap cap' ->
  (w = ""
   \/ exists n ws,
        n <> "" /\ all_string perl_d n = true /\ all_string perl_s ws = true
        /\ w = "line " ++ n ++ ":" ++ ws)
  /\ cap' = cap.
Proof.
  intros H. inversion H; subst; clear H; [|auto].
  repeat match goal with
         | H : matches (Plus _) _ _ _ |- _ =>
             apply matches_Plus_inv in H as (? & ? & ->)
         | H : matches (Cat _ _) _ _ _ |- _ => inversion H; subst; clear H
         | H : matches (Lit _) _ _ _ |- _ => inversion H; subst; clear H
         | H : matches (Star _) _ _ _ |- _ => inversion H; subst; clear H
         end.
  split; [right|reflexivity]. do 2 eexists. repeat split; eassumption.
Qed.

Lemma notFoundRe_matches_iff (w : string) (cap : option string) :
  matches notFoundRe w None cap
  <-> exists name, cap = Some name /\ sh_not_found_message w name.
Proof.
  unfold notFoundRe, sh_not_found_message. split.
  - intros H.
    repeat match goal with
           | H : matches (Plus _) _ _ _ |- _ =>
               apply matches_Plus_inv in H as (? & ? & ->)
           | H : matches (Alt _ _) _ _ _ |- _ =>
               apply matches_Alt_Lit_inv in H as (? & ->)
           | H : matches (Opt (Lit _)) _ _ _ |- _ =>
               apply matches_Opt_Lit_inv in H as (? & ->)
           | H : matches (Opt (Cat _ _)) _ _ _ |- _ =>
               apply matches_line_inv in H as (? & ->)
           | H : matches (Cat _ _) _ _ _ |- _ => inversion H; subst; clear H
           | H : matches (Cap _) _ _ _ |- _ => inversion H; subst; clear H
           | H : matches (Lit _) _ _ _ |- _ => inversion H; subst; clear H
           | H : matches (Star _) _ _ _ |- _ => inversion H; subst; clear H
           end.
    eexists. split; [reflexivity|]. do 5 eexists.
    repeat split; eassumption.
  - intros (name & -> & shell & ws1 & line & ws2 & cmd
            & Hshell & Hws1 & Hline & Hname & HS & Hws2 & Hcmd & ->).
    assert (Hsh : matches (Alt (Lit "sh") (Lit "bash")) shell None None).
    { destruct Hshell as [-> | ->]; eauto using matches. }
    assert (Hl : matches
                   (Opt (Cat (Lit "line ")
                           (Cat (Plus perl_d) (Cat (Lit ":") (Star perl_s)))))
                   line None None).
    { destruct Hline as [-> | (n & ws & Hn & Hd & Hws & ->)];
        eauto 10 using matches, matches_Plus. }
    assert (Hc : matches (Opt (Lit "command ")) cmd (Some name) (Some name)).
    { destruct Hcmd as [-> | ->]; eauto using matches. }
    eauto 20 using matches, matches_Plus.
Qed.

Lemma notFoundZshRe_matches_iff (w : string) (cap : option string) :
  matches notFoundZshRe w None cap
  <-> exists name, cap = Some name /\ zsh_not_found_message w name.
Proof.
  unfold notFoundZshRe, zsh_not_found_message. split.
  - intros H.
    repeat match goal with
           | H : matches (Plus _) _ _ _ |- _ =>
               apply matches_Plus_inv in H as (? & ? & ->)
           | H : matches (Cat _ _) _ _ _ |- _ => inversion H; subst; clear H
           | H : matches (Cap _) _ _ _ |- _ => inversion H; subst; clear H
           | H : matches (Lit _) _ _ _ |- _ => inversion H; subst; clear H
           | H : matches (Star _) _ _ _ |- _ => inversion H; subst; clear H
           end.
    eexists. split; [reflexivity|]. do 2 eexists.
    repeat split; eassumption.
  - intros (name & -> & ws1 & ws2 & Hws1 & Hws2 & Hname & HS & ->).
    eauto 20 using matches, matches_Plus.
Qed.

(** What [FindStringSubmatch] returns for a pattern whose matches are the
    messages of shape [shape]: nil when the text mentions none, else a
    match and the name of a message the text mentions. *)
Lemma FindStringSubmatch_shape (r : re) (shape : string -> string -> Prop) :
  (forall w cap,
      matches r w None cap <-> exists name, cap = Some name /\ shape w name) ->
  forall text,
    (FindStringSubmatch r text = [] /\ ~ (exists name, mentions shape text name))
    \/ (exists w name,
          FindStringSubmatch r text = [w; name] /\ mentions shape text name).
Proof.
  intros Hr text.
  destruct (FindStringSubmatch_sound r text)
    as [Hnil | (pre & w & post & cap & Htext & Hm & Hfind)].
  - left. split; [exact Hnil|].
    intros (name & pre & w & post & -> & Hshape).
    refine (FindStringSubmatch_complete r pre w post (Some name) _ Hnil).
    apply Hr. eauto.
  - right. apply Hr in Hm as (name & -> & Hshape).
    exists w, name. split; [exact Hfind|]. now exists pre, w, post.
Qed.

(** C3, as stated, fails: the sh/bash pattern of the code also takes a
    message that ends in [: not found] without the word [command].  On the
    error text [sh: foo: not found] and the command [bar baz] the code
    answers [foo]; with the patterns as the specification words them
    neither matches and the answer is the first token, [bar]. *)
Lemma parseNotFoundCommand_not_as_specified :
  ~ (forall stderr command,
        parseNotFoundCommand stderr command
        = parseNotFoundCommand_as_specified stderr command).
Proof.
  intros H. specialize (H ("sh: foo: not found" ++ nl) "bar baz").
  vm_compute in H. discriminate H.
Qed.

(** C3, amended: the name is that of a sh/bash message in the error text
    when there is one, where the message is [sh:] or [bash:], an optional
    [line N:] segment, the name, a colon and [not found] with or without
    [command ] in front; otherwise that of a zsh message when there is
    one; otherwise the first field of the command.  The three error texts
    of the specification give [ss], [htop] and [rg]. *)
Theorem parseNotFoundCommand_extraction (stderr command : string) :
  ((exists name, mentions sh_not_found_message stderr name) ->
   mentions sh_not_found_message stderr (parseNotFoundCommand stderr command))
  /\ (~ (exists name, mentions sh_not_found_message stderr name) ->
      (exists name, mentions zsh_not_found_message stderr name) ->
      mentions zsh_not_found_message stderr
        (parseNotFoundCommand stderr command))
  /\ (~ (exists name, mentions sh_not_found_message stderr name) ->
      ~ (exists name, mentions zsh_not_found_message stderr name) ->
      parseNotFoundCommand stderr command
      = match Fields command with
        | first :: _ => first
        | [] => ""
        end)
  /\ parseNotFoundCommand ("sh: ss: command not found" ++ nl) command = "ss"
  /\ parseNotFoundCommand ("bash: line 1: htop: command not found" ++ nl)
       command = "htop"
  /\ parseNotFoundCommand ("zsh: command not found: rg" ++ nl) command = "rg".
Proof.
  assert (Hcases :
    ((exists name, mentions sh_not_found_message stderr name) ->
     mentions sh_not_found_message stderr (parseNotFoundCommand stderr command))
    /\ (~ (exists name, mentions sh_not_found_message stderr name) ->
        (exists name, mentions zsh_not_found_message stderr name) ->
        mentions zsh_not_found_message stderr
          (parseNotFoundCommand stderr command))
    /\ (~ (exists name, mentions sh_not_found_message stderr name) ->
        ~ (exists name, mentions zsh_not_found_message stderr name) ->
        parseNotFoundCommand stderr command
        = match Fields command with
          | first :: _ => first
          | [] => ""
          end)).
  { unfold parseNotFoundCommand.
    destruct (FindStringSubmatch_shape _ _ notFoundRe_matches_iff stderr)
      as [[-> Hsh] | (w & name & -> & Hsh)].
    - destruct (FindStringSubmatch_shape _ _ notFoundZshRe_matches_iff stderr)
        as [[-> Hzsh] | (w' & name' & -> & Hzsh)]; cbn.
      + repeat split; [now intros H | now intros _ H].
      + repeat split; [now intros H | auto | ].
        intros _ H. destruct H. eauto.
    - cbn. repeat split; [auto | |]; intros H; destruct H; eauto. }
  destruct Hcases as (H1 & H2 & H3).
  refine (conj H1 (conj H2 (conj H3 _))).
  vm_compute. auto.
Qed.

(** C3, amended, on a message of ash inside other output and on an error
    text without any message. *)
Lemma parseNotFoundCommand_extraction_witness :
  mentions sh_not_found_message ("make: sh: foo: not found" ++ nl)
    (parseNotFoundCommand ("make: sh: foo: not found" ++ nl) "bar baz")
  /\ parseNotFoundCommand ("some unexpected error" ++ nl) "nonexistent --flag"
     = "nonexistent".
Proof.
  split.
  - apply (proj1 (parseNotFoundCommand_extraction _ "bar baz")).
    exists "foo", "make: ", "sh: foo: not found", nl.
    split; [reflexivity|].
    exists "sh", " ", "", " ", "". repeat split; auto; discriminate.
  - assert (Hsh : FindStringSubmatch notFoundRe ("some unexpected error" ++ nl)
                  = []) by (vm_compute; reflexivity).
    assert (Hzsh : FindStringSubmatch notFoundZshRe
                     ("some unexpected error" ++ nl) = [])
      by (vm_compute; reflexivity).
    destruct (parseNotFoundCommand_extraction
                ("some unexpected error" ++ nl) "nonexistent --flag")
      as (_ & _ & H & _).
    rewrite H; [vm_compute; reflexivity | |].
    + intros (name & pre & w & post & Htext & Hshape).
      refine (FindStringSubmatch_complete notFoundRe pre w post (Some name) _ _).
      * apply notFoundRe_matches_iff. eauto.
      * rewrite <- Htext. exact Hsh.
    + intros (name & pre & w & post & Htext & Hshape).
      refine (FindStringSubmatch_complete notFoundZshRe pre w post
                (Some name) _ _).
      * apply notFoundZshRe_matches_iff. eauto.
      * rewrite <- Htext. exact Hzsh.
Defined.


(** * Further properties of the code *)

(** ** White space and [strings.TrimSpace] *)

Lemma string_strong_ind (P : string -> Prop) :
  (forall s, (forall t, (String.length t < String.length s)%nat -> P t) -> P s) ->
  forall s, P s.
Proof.
  intros step s. apply step.
  induction s as [|c s IH]; intros t Ht; cbn in Ht; [lia|].
  apply step. intros u Hu. apply IH. lia.
Qed.

Lemma space2_high (a b : ascii) :
  space2 a b = true -> (128 <= byte_of a)%N /\ (128 <= byte_of b)%N.
Proof. unfold space2. intros H. bool_to_N H. lia. Qed.

Lemma space3_high (a b c : ascii) :
  space3 a b c = true ->
  (128 <= byte_of a)%N /\ (128 <= byte_of b)%N /\ (128 <= byte_of c)%N.
Proof. unfold space3. cbv zeta. intros H. bool_to_N H. lia. Qed.

Lemma asciiSpace_low (c : ascii) :
  asciiSpace c = true -> (byte_of c < 128)%N.
Proof. unfold asciiSpace. cbv zeta. intros H. bool_to_N H. lia. Qed.

Section TrimLead.
Variable p2 : ascii -> ascii -> bool.
Variable p3 : ascii -> ascii -> ascii -> bool.

Lemma trim_lead_suffix (s : string) :
  exists pre, s = pre ++ trim_lead p2 p3 s.
Proof.
  induction s as [s IH] using string_strong_ind.
  destruct s as [|c1 s1]; [now exists ""|]. cbn [trim_lead].
  destruct (asciiSpace c1).
  { destruct (IH s1) as [pre Hpre]; [cbn; lia|].
    exists (String c1 pre). rewrite append_cons. now f_equal. }
  destruct s1 as [|c2 s2]; [now exists ""|].
  destruct (p2 c1 c2).
  { destruct (IH s2) as [pre Hpre]; [cbn; lia|].
    exists (String c1 (String c2 pre)). rewrite !append_cons. now do 2 f_equal. }
  destruct s2 as [|c3 s3]; [now exists ""|].
  destruct (p3 c1 c2 c3); [|now exists ""].
  destruct (IH s3) as [pre Hpre]; [cbn; lia|].
  exists (String c1 (String c2 (String c3 pre))).
  rewrite !append_cons. now do 3 f_equal.
Qed.

Lemma lead_space_trim_lead (s : string) :
  lead_space p2 p3 (trim_lead p2 p3 s) = false.
Proof.
  induction s as [s IH] using string_strong_ind.
  destruct s as [|c1 s1]; [reflexivity|]. cbn [trim_lead].
  destruct (asciiSpace c1) eqn:E1; [apply IH; cbn; lia|].
  destruct s1 as [|c2 s2]; [cbn; now rewrite E1|].
  destruct (p2 c1 c2) eqn:E2; [apply IH; cbn; lia|].
  destruct s2 as [|c3 s3]; [cbn; now rewrite E1, E2|].
  destruct (p3 c1 c2 c3) eqn:E3; [apply IH; cbn; lia|].
  cbn. now rewrite E1, E2, E3.
Qed.

Lemma trim_lead_fixed (s : string) :
  lead_space p2 p3 s = false -> trim_lead p2 p3 s = s.
Proof.
  destruct s as [|c1 [|c2 [|c3 s3]]]; cbn; intros H;
    repeat (apply orb_false_elim in H as [? H]);
    repeat match goal with E : _ = false |- _ => rewrite E; clear E end;
    reflexivity.
Qed.

Lemma lead_space_prefix (s t : string) :
  lead_space p2 p3 (s ++ t) = false -> lead_space p2 p3 s = false.
Proof.
  destruct s as [|c1 [|c2 [|c3 s3]]]; [reflexivity| | |];
    rewrite ?append_cons; cbn [lead_space]; intros H;
    repeat (apply orb_false_elim in H as [? H]);
    repeat match goal with E : _ = false |- _ => rewrite E; clear E end;
    reflexivity.
Qed.

Lemma trim_lead_blanks (a s : string) :
  all_string asciiSpace a = true ->
  trim_lead p2 p3 (a ++ s) = trim_lead p2 p3 s.
Proof.
  induction a as [|c a IH]; [reflexivity|].
  cbn. intros H. apply andb_prop in H as [Hc Ha].
  rewrite append_cons. cbn [trim_lead]. rewrite Hc. now apply IH.
Qed.

End TrimLead.

Lemma all_string_append (p : ascii -> bool) (s t : string) :
  all_string p (s ++ t) = all_string p s && all_string p t.
Proof.
  induction s as [|c s IH]; [reflexivity|].
  rewrite append_cons. cbn. now rewrite IH, andb_assoc.
Qed.

Lemma all_string_rev (p : ascii -> bool) (s : string) :
  all_string p (rev_string s) = all_string p s.
Proof.
  induction s as [|c s IH]; [reflexivity|].
  cbn. rewrite all_string_append, IH. cbn. rewrite andb_true_r.
  apply andb_comm.
Qed.

(** White space appended to [s] stays behind what [TrimLeftSpace] leaves
    of [s], or goes with it when nothing is left. *)
Lemma TrimLeftSpace_append_blanks (s b : string) :
  all_string asciiSpace b = true ->
  exists b',
    all_string asciiSpace b' = true
    /\ TrimLeftSpace (s ++ b) = TrimLeftSpace s ++ b'.
Proof.
  intros Hb. unfold TrimLeftSpace.
  assert (Hblank : exists b', all_string asciiSpace b' = true
                     /\ trim_lead space2 space3 b = "" ++ b').
  { exists "". split; [reflexivity|].
    rewrite <- (append_nil_r b), trim_lead_blanks by assumption.
    reflexivity. }
  assert (H2 : forall c w, asciiSpace w = true -> space2 c w = false).
  { intros c w Hw. apply asciiSpace_low in Hw.
    destruct (space2 c w) eqn:E; [|reflexivity].
    apply space2_high in E. lia. }
  assert (H3 : forall c w x, asciiSpace w = true ->
                 space3 c w x = false /\ space3 c x w = false).
  { intros c w x Hw. apply asciiSpace_low in Hw. split.
    - destruct (space3 c w x) eqn:E; [|reflexivity].
      apply space3_high in E. lia.
    - destruct (space3 c x w) eqn:E; [|reflexivity].
      apply space3_high in E. lia. }
  induction s as [s IH] using string_strong_ind.
  destruct s as [|c1 s1]; [exact Hblank|].
  rewrite append_cons. cbn [trim_lead].
  destruct (asciiSpace c1) eqn:E1; [apply IH; cbn; lia|].
  destruct s1 as [|c2 s2].
  { exists b. split; [assumption|]. change ("" ++ b) with b.
    destruct b as [|w [|x b]]; [reflexivity| |];
      cbn in Hb; apply andb_prop in Hb as [Hw Hb].
    - now rewrite (H2 c1 w Hw).
    - now rewrite (H2 c1 w Hw), (proj1 (H3 c1 w x Hw)). }
  rewrite append_cons.
  destruct (space2 c1 c2) eqn:E2; [apply IH; cbn; lia|].
  destruct s2 as [|c3 s3].
  { exists b. split; [assumption|]. change ("" ++ b) with b.
    destruct b as [|w b]; [reflexivity|].
    cbn in Hb. apply andb_prop in Hb as [Hw Hb].
    now rewrite (proj2 (H3 c1 w c2 Hw)). }
  rewrite append_cons.
  destruct (space3 c1 c2 c3) eqn:E3; [apply IH; cbn; lia|].
  now exists b.
Qed.

Lemma TrimRightSpace_append_blanks (s b : string) :
  all_string asciiSpace b = true ->
  TrimRightSpace (s ++ b) = TrimRightSpace s.
Proof.
  intros Hb. unfold TrimRightSpace.
  rewrite rev_string_append, trim_lead_blanks; [reflexivity|].
  now rewrite all_string_rev.
Qed.

Lemma TrimSpace_padded (line padded : string) :
  padded_line line padded -> TrimSpace padded = TrimSpace line.
Proof.
  intros (a & b & Ha & Hb & ->). unfold TrimSpace.
  unfold TrimLeftSpace at 1. rewrite trim_lead_blanks by assumption.
  fold (TrimLeftSpace (line ++ b)).
  destruct (TrimLeftSpace_append_blanks line b Hb) as (b' & Hb' & ->).
  now apply TrimRightSpace_append_blanks.
Qed.

(** What [TrimSpace] returns is a piece of its argument. *)
Lemma TrimSpace_piece (s : string) :
  exists pre post, s = pre ++ TrimSpace s ++ post.
Proof.
  unfold TrimSpace, TrimRightSpace, TrimLeftSpace.
  destruct (trim_lead_suffix space2 space3 s) as [pre Hpre].
  set (u := trim_lead space2 space3 s) in *.
  destruct (trim_lead_suffix (fun a b => space2 b a)
              (fun a b c => space3 c b a) (rev_string u)) as [post Hpost].
  exists pre, (rev_string post).
  rewrite <- rev_string_append, <- Hpost, rev_string_involutive. exact Hpre.
Qed.

(** What [TrimSpace] returns neither begins nor ends with white space. *)
Lemma TrimSpace_trimmed (s : string) :
  starts_with_space (TrimSpace s) = false
  /\ ends_with_space (TrimSpace s) = false.
Proof.
  unfold starts_with_space, ends_with_space, TrimSpace, TrimRightSpace.
  set (u := TrimLeftSpace s).
  split.
  - destruct (trim_lead_suffix (fun a b => space2 b a)
                (fun a b c => space3 c b a) (rev_string u)) as [post Hpost].
    apply (lead_space_prefix _ _ _ (rev_string post)).
    rewrite <- rev_string_append, <- Hpost, rev_string_involutive.
    apply lead_space_trim_lead.
  - rewrite rev_string_involutive. apply lead_space_trim_lead.
Qed.

Lemma TrimSpace_fixed (s : string) :
  starts_with_space s = false -> ends_with_space s = false -> TrimSpace s = s.
Proof.
  unfold starts_with_space, ends_with_space, TrimSpace, TrimRightSpace,
    TrimLeftSpace.
  intros Hl Hr. rewrite (trim_lead_fixed _ _ _ Hl), (trim_lead_fixed _ _ _ Hr).
  apply rev_string_involutive.
Qed.

Lemma TrimSpace_idempotent (s : string) : TrimSpace (TrimSpace s) = TrimSpace s.
Proof. apply TrimSpace_fixed; apply TrimSpace_trimmed. Qed.

(** ** More on the response parser and the display *)

Lemma SplitLines_nonempty (s : string) : SplitLines s <> [].
Proof.
  destruct s as [|c s]; [discriminate|]. cbn [SplitLines].
  destruct (Ascii.eqb c LF); [discriminate|].
  destruct (SplitLines s); discriminate.
Qed.

Lemma SplitLines_append (r1 r2 : string) :
  SplitLines (r1 ++ nl ++ r2) = (SplitLines r1 ++ SplitLines r2)%list.
Proof.
  induction r1 as [|c r1 IH].
  - change (SplitLines (String LF r2) = "" :: SplitLines r2).
    cbn [SplitLines]. now rewrite Ascii.eqb_refl.
  - rewrite append_cons. cbn [SplitLines]. rewrite IH.
    destruct (Ascii.eqb c LF); [reflexivity|].
    pose proof (SplitLines_nonempty r1) as Hne.
    destruct (SplitLines r1) as [|h t]; [congruence|reflexivity].
Qed.

Lemma SplitLines_no_LF (s : string) :
  Forall (fun l => no_LF l = true) (SplitLines s).
Proof.
  induction s as [|c s IH]; [repeat constructor|].
  cbn [SplitLines]. destruct (Ascii.eqb c LF) eqn:E.
  - constructor; [reflexivity | exact IH].
  - assert (Hc : forall h, no_LF h = true -> no_LF (String c h) = true).
    { intros h Hh. unfold no_LF in *. cbn [all_string]. now rewrite E, Hh. }
    destruct (SplitLines s) as [|h t]; [repeat constructor; now apply Hc|].
    inversion IH as [|? ? Hh Ht]; subst.
    constructor; [now apply Hc | exact Ht].
Qed.

Lemma no_LF_piece (pre s post : string) :
  no_LF (pre ++ s ++ post) = true -> no_LF s = true.
Proof.
  unfold no_LF. rewrite !all_string_append. intros H.
  apply andb_prop in H as [_ H]. now apply andb_prop in H as [H _].
Qed.

Lemma no_LF_TrimSpace (s : string) : no_LF s = true -> no_LF (TrimSpace s) = true.
Proof.
  destruct (TrimSpace_piece s) as (pre & post & H). intros Hs.
  rewrite H in Hs. now apply no_LF_piece in Hs.
Qed.

Lemma drop_string_suffix (n : nat) (s : string) :
  exists pre, s = pre ++ drop_string n s.
Proof.
  revert s. induction n as [|n IH]; intros s; [now exists ""|].
  destruct s as [|c s]; [now exists ""|].
  destruct (IH s) as [pre Hpre]. exists (String c pre).
  rewrite append_cons. cbn. now f_equal.
Qed.

Lemma no_LF_TrimPrefix (s p : string) :
  no_LF s = true -> no_LF (TrimPrefix s p) = true.
Proof.
  unfold TrimPrefix. destruct (HasPrefix s p); [|auto].
  destruct (drop_string_suffix (String.length p) s) as [pre H].
  intros Hs. rewrite H in Hs. apply (no_LF_piece pre _ "").
  now rewrite append_nil_r.
Qed.

(** The loop of [ParseResponse] keeps every property of the fields that a
    trimmed piece of a line has and the empty string has. *)
Lemma parse_lines_fields (P : string -> Prop) (lines : list string)
    (result : Result) :
  (forall line p, In line lines ->
     P (TrimSpace (TrimPrefix (TrimSpace line) p))) ->
  P (Command result) -> P (Explanation result) ->
  P (Command (parse_lines lines result))
  /\ P (Explanation (parse_lines lines result)).
Proof.
  revert result. induction lines as [|l ls IH]; intros result Hl Hc He;
    [now split|].
  cbn. apply IH.
  - intros line p Hin. apply Hl. now right.
  - unfold parse_line.
    destruct (HasPrefix (TrimSpace l) "COMMAND:"); [apply Hl; now left|].
    now destruct (HasPrefix (TrimSpace l) "EXPLANATION:").
  - unfold parse_line.
    destruct (HasPrefix (TrimSpace l) "COMMAND:"); [exact He|].
    destruct (HasPrefix (TrimSpace l) "EXPLANATION:");
      [apply Hl; now left | exact He].
Qed.

(** X1: the fields of a parsed response carry no white space at either
    end, so trimming them again returns them as they are. *)
Theorem ParseResponse_fields_trimmed (response : string) :
  let result := ParseResponse response in
  (starts_with_space (Command result) = false
   /\ ends_with_space (Command result) = false
   /\ TrimSpace (Command result) = Command result)
  /\ (starts_with_space (Explanation result) = false
      /\ ends_with_space (Explanation result) = false
      /\ TrimSpace (Explanation result) = Explanation result).
Proof.
  apply (parse_lines_fields
           (fun s => starts_with_space s = false /\ ends_with_space s = false
                     /\ TrimSpace s = s)).
  - intros line p _.
    destruct (TrimSpace_trimmed (TrimPrefix (TrimSpace line) p)) as [H1 H2].
    auto using TrimSpace_idempotent.
  - repeat split.
  - repeat split.
Qed.

(** X4: what the quiet display prints for a parsed response is one line:
    the command carries no line feed and one line feed ends the output. *)
Theorem DisplayQuiet_one_line (response : string) :
  exists command,
    DisplayQuiet (ParseResponse response) = command ++ nl
    /\ no_LF command = true
    /\ command = Command (ParseResponse response).
Proof.
  exists (Command (ParseResponse response)).
  split; [reflexivity|]. split; [|reflexivity].
  apply (parse_lines_fields (fun s => no_LF s = true)); [|reflexivity..].
  intros line p Hin.
  apply no_LF_TrimSpace, no_LF_TrimPrefix, no_LF_TrimSpace.
  pose proof (SplitLines_no_LF response) as H.
  rewrite Forall_forall in H. now apply H.
Qed.

Lemma parse_line_padded (result : Result) (line padded : string) :
  padded_line line padded -> parse_line result padded = parse_line result line.
Proof.
  intros H. unfold parse_line. now rewrite (TrimSpace_padded _ _ H).
Qed.

(** X2: white space added around the lines of a response (blanks, tabs,
    the carriage returns of CRLF line ends) does not change the result. *)
Theorem ParseResponse_padding (response padded : string) :
  Forall2 padded_line (SplitLines response) (SplitLines padded) ->
  ParseResponse padded = ParseResponse response.
Proof.
  unfold ParseResponse. generalize {| Command := ""; Explanation := "" |}.
  intros result H. revert result.
  induction H as [|l l' ls ls' Hl _ IH]; intros result; [reflexivity|].
  cbn. rewrite (parse_line_padded _ _ _ Hl). apply IH.
Qed.

(** X2 on a response with CRLF line ends and indented lines. *)
Lemma ParseResponse_padding_witness :
  let cr := String (ascii_of_N 13) "" in
  let tab := String (ascii_of_N 9) "" in
  ParseResponse
    (" COMMAND: ls -la" ++ cr ++ nl ++ tab ++ "EXPLANATION: List files " ++ cr)
  = ParseResponse ("COMMAND: ls -la" ++ nl ++ "EXPLANATION: List files").
Proof.
  intros cr tab.
  apply (ParseResponse_padding
           ("COMMAND: ls -la" ++ nl ++ "EXPLANATION: List files")).
  change (Forall2 padded_line
            ["COMMAND: ls -la"; "EXPLANATION: List files"]
            [" " ++ "COMMAND: ls -la" ++ cr;
             tab ++ "EXPLANATION: List files" ++ (" " ++ cr)]).
  constructor; [|constructor; [|constructor]].
  - exists " ", cr. repeat split.
  - exists tab, (" " ++ cr). repeat split.
Defined.

Lemma parse_line_sets_command (r r' : Result) (line : string) :
  is_command_line line = true ->
  Command (parse_line r line) = Command (parse_line r' line).
Proof. unfold is_command_line, parse_line. now intros ->. Qed.

Lemma parse_line_sets_explanation (r r' : Result) (line : string) :
  is_explanation_line line = true ->
  Explanation (parse_line r line) = Explanation (parse_line r' line).
Proof.
  unfold is_explanation_line, parse_line. intros H. rewrite H.
  apply HasPrefix_iff in H as [rest ->]. reflexivity.
Qed.

Lemma parse_lines_override (lines : list string) (result : Result) :
  Command (parse_lines lines result)
  = (if existsb is_command_line lines
     then Command (parse_lines lines empty_Result) else Command result)
  /\ Explanation (parse_lines lines result)
     = (if existsb is_explanation_line lines
        then Explanation (parse_lines lines empty_Result)
        else Explanation result).
Proof.
  revert result. induction lines as [|l ls IH]; intros result; [now split|].
  change (parse_lines (l :: ls) result)
    with (parse_lines ls (parse_line result l)).
  change (parse_lines (l :: ls) empty_Result)
    with (parse_lines ls (parse_line empty_Result l)).
  cbn [existsb].
  destruct (IH (parse_line result l)) as [-> ->].
  destruct (IH (parse_line empty_Result l)) as [-> ->].
  split.
  - destruct (existsb is_command_line ls); [now rewrite orb_true_r|].
    rewrite orb_false_r. destruct (is_command_line l) eqn:E.
    + now apply parse_line_sets_command.
    + now apply parse_line_keeps_command.
  - destruct (existsb is_explanation_line ls); [now rewrite orb_true_r|].
    rewrite orb_false_r. destruct (is_explanation_line l) eqn:E.
    + now apply parse_line_sets_explanation.
    + now apply parse_line_keeps_explanation.
Qed.

(** X3: parsing is a fold over the lines, so for two pieces of text joined
    by a line feed the second is parsed on top of the result of the first:
    each field comes from the second piece when that has a line for it and
    from the first piece otherwise. *)
Theorem ParseResponse_append (r1 r2 : string) :
  let result := ParseResponse (r1 ++ nl ++ r2) in
  result = parse_lines (SplitLines r2) (ParseResponse r1)
  /\ Command result
     = (if existsb is_command_line (SplitLines r2)
        then Command (ParseResponse r2) else Command (ParseResponse r1))
  /\ Explanation result
     = (if existsb is_explanation_line (SplitLines r2)
        then Explanation (ParseResponse r2)
        else Explanation (ParseResponse r1)).
Proof.
  intros result.
  assert (H : result = parse_lines (SplitLines r2) (ParseResponse r1)).
  { subst result. unfold ParseResponse, parse_lines.
    now rewrite SplitLines_append, fold_left_app. }
  split; [exact H|]. rewrite H.
  apply (parse_lines_override (SplitLines r2) (ParseResponse r1)).
Qed.

(** X5: a response without explanation text (no [EXPLANATION:] line, or a
    last one with nothing after the prefix) is displayed as the blank line,
    the command line and the closing blank line, without an explanation
    line, whatever the styles render. *)
Theorem Display_without_explanation
    (label_Render command_Render explanation_Render : string -> string)
    (response : string) :
  Forall (fun l => is_explanation_line l = false) (SplitLines response)
  \/ (exists pre line post,
        SplitLines response = (pre ++ line :: post)%list
        /\ TrimSpace line = "EXPLANATION:"
        /\ Forall (fun l => is_explanation_line l = false) post) ->
  Display label_Render command_Render explanation_Render
    (ParseResponse response)
  = nl ++ "  " ++ label_Render "$" ++ " "
    ++ command_Render (Command (ParseResponse response)) ++ nl ++ nl.
Proof.
  intros H.
  assert (He : Explanation (ParseResponse response) = "").
  { unfold ParseResponse.
    destruct H as [H | (pre & line & post & -> & Hline & Hpost)].
    - now rewrite parse_lines_keep_explanation.
    - unfold parse_lines. rewrite fold_left_app. cbn [fold_left].
      fold (parse_lines post).
      rewrite parse_lines_keep_explanation by assumption.
      now rewrite (parse_line_explanation _ line "" Hline). }
  unfold Display. rewrite He. cbn [String.eqb negb].
  now rewrite !append_assoc.
Qed.

(** X5 on a response with a command only and on one with an empty
    explanation. *)
Lemma Display_without_explanation_witness :
  Display Demo.Render Demo.Render Demo.Render (ParseResponse "COMMAND: git status")
  = nl ++ "  $ git status" ++ nl ++ nl
  /\ Display Demo.Render Demo.Render Demo.Render
       (ParseResponse ("COMMAND: ls" ++ nl ++ " EXPLANATION:  "))
     = nl ++ "  $ ls" ++ nl ++ nl.
Proof.
  split.
  - apply (Display_without_explanation Demo.Render Demo.Render Demo.Render
             "COMMAND: git status").
    left. repeat constructor.
  - apply (Display_without_explanation Demo.Render Demo.Render Demo.Render
             ("COMMAND: ls" ++ nl ++ " EXPLANATION:  ")).
    right. exists ["COMMAND: ls"], " EXPLANATION:  ", [].
    repeat split. constructor.
Defined.

(** ** More on the executor *)

Lemma space_marks_not_blank (s : string) :
  Forall (fun m => forall c, m = Some c -> asciiSpace c = false)
    (space_marks s).
Proof.
  induction s as [s IH] using string_strong_ind.
  destruct s as [|c1 s1]; [constructor|].
  assert (Hsome : asciiSpace c1 = false ->
            Forall (fun m => forall c, m = Some c -> asciiSpace c = false)
              (Some c1 :: space_marks s1)).
  { intros E. constructor; [now intros c [= <-] | apply IH; cbn; lia]. }
  assert (Hnone : forall t, (String.length t < String.length (String c1 s1))%nat ->
            Forall (fun m => forall c, m = Some c -> asciiSpace c = false)
              (None :: space_marks t)).
  { intros t Ht. constructor; [discriminate | now apply IH]. }
  cbn [space_marks]. destruct (asciiSpace c1) eqn:E1; [apply Hnone; cbn; lia|].
  destruct s1 as [|c2 s2]; [now apply Hsome|].
  destruct (space2 c1 c2); [apply Hnone; cbn; lia|].
  destruct s2 as [|c3 s3]; [now apply Hsome|].
  destruct (space3 c1 c2 c3); [apply Hnone; cbn; lia | now apply Hsome].
Qed.

Lemma fields_of_words (marks : list (option ascii)) :
  Forall (fun m => forall c, m = Some c -> asciiSpace c = false) marks ->
  Forall (fun f => f <> ""
                   /\ all_string (fun c => negb (asciiSpace c)) f = true)
    (fields_of marks).
Proof.
  induction 1 as [|m marks Hm Hmarks IH]; [constructor|].
  destruct m as [c|]; [|exact IH]. cbn [fields_of].
  specialize (Hm c eq_refl).
  destruct marks as [|[c'|] marks'].
  - repeat constructor; [discriminate | cbn; now rewrite Hm].
  - destruct (fields_of (Some c' :: marks')) as [|h t] eqn:E.
    + repeat constructor; [discriminate | cbn; now rewrite Hm].
    + inversion IH as [|? ? [Hh1 Hh2] Ht]; subst.
      constructor; [|exact Ht]. split; [discriminate|].
      cbn. now rewrite Hm, Hh2.
  - constructor; [|exact IH]. split; [discriminate|]. cbn. now rewrite Hm.
Qed.

(** Every field of [strings.Fields] is a word: not empty, no white-space
    byte in it. *)
Lemma Fields_words (s : string) :
  Forall (fun f => f <> ""
                   /\ all_string (fun c => negb (asciiSpace c)) f = true)
    (Fields s).
Proof. apply fields_of_words, space_marks_not_blank. Qed.

Lemma perl_s_asciiSpace (c : ascii) : perl_s c = true -> asciiSpace c = true.
Proof.
  unfold perl_s, asciiSpace. cbv zeta. intros H. bool_to_N H.
  apply orb_true_iff. rewrite andb_true_iff, !N.leb_le, N.eqb_eq. lia.
Qed.

Lemma all_string_impl (p q : ascii -> bool) (s : string) :
  (forall c, p c = true -> q c = true) ->
  all_string p s = true -> all_string q s = true.
Proof.
  intros Hpq. induction s as [|c s IH]; [reflexivity|].
  cbn. intros H. apply andb_prop in H as [Hc Hs].
  now rewrite (Hpq c Hc), IH.
Qed.

(** The name [parseNotFoundCommand] returns, by origin: a word taken from
    a message in the error text, or a word of the command, or nothing. *)
Lemma parseNotFoundCommand_origin (stderr command : string) :
  let name := parseNotFoundCommand stderr command in
  (name <> "" /\ all_string perl_S name = true
   /\ ((exists n, mentions sh_not_found_message stderr n)
       \/ (exists n, mentions zsh_not_found_message stderr n)
       \/ Fields command <> []))
  \/ (name = ""
      /\ ~ (exists n, mentions sh_not_found_message stderr n)
      /\ ~ (exists n, mentions zsh_not_found_message stderr n)
      /\ Fields command = []).
Proof.
  unfold parseNotFoundCommand.
  destruct (FindStringSubmatch_shape _ _ notFoundRe_matches_iff stderr)
    as [[-> Hsh] | (w & name & -> & Hsh)]; cbn.
  2: { left. destruct Hsh as (pre & w' & post & Ht & Hshape).
       pose proof Hshape as (? & ? & ? & ? & ? & _ & _ & _ & Hne & HS & _).
       repeat split; [assumption..|]. left. exists name.
       now exists pre, w', post. }
  destruct (FindStringSubmatch_shape _ _ notFoundZshRe_matches_iff stderr)
    as [[-> Hzsh] | (w & name & -> & Hzsh)]; cbn.
  2: { left. destruct Hzsh as (pre & w' & post & Ht & Hshape).
       pose proof Hshape as (? & ? & _ & _ & Hne & HS & _).
       repeat split; [assumption..|]. right. left. exists name.
       now exists pre, w', post. }
  pose proof (Fields_words command) as Hw.
  destruct (Fields command) as [|first rest]; [now right|].
  left. inversion Hw as [|? ? [Hne Hall] _]; subst.
  repeat split; [assumption | | right; right; discriminate].
  apply (all_string_impl (fun c => negb (asciiSpace c))); [|assumption].
  intros c Hc. unfold perl_S. destruct (perl_s c) eqn:E; [|reflexivity].
  apply perl_s_asciiSpace in E. now rewrite E in Hc.
Qed.

(** X6: the name of the missing command is always one word (no blank, tab
    or line end in it), and it is empty only when the error text carries
    no message of either shape and the command has no field. *)
Theorem parseNotFoundCommand_one_word (stderr command : string) :
  all_string perl_S (parseNotFoundCommand stderr command) = true
  /\ (parseNotFoundCommand stderr command = ""
      <-> ~ (exists n, mentions sh_not_found_message stderr n)
          /\ ~ (exists n, mentions zsh_not_found_message stderr n)
          /\ Fields command = []).
Proof.
  destruct (parseNotFoundCommand_origin stderr command)
    as [(Hne & HS & Hwhy) | (-> & Hsh & Hzsh & Hf)].
  - split; [exact HS|]. split; [congruence|].
    intros (Hsh & Hzsh & Hf). destruct Hwhy as [H | [H | H]]; contradiction.
  - split; [reflexivity|]. tauto.
Qed.

(** X6 on an error text without a message and a command of blanks. *)
Lemma parseNotFoundCommand_one_word_witness :
  Fields "   " = [] /\ parseNotFoundCommand "boom" "   " = "".
Proof.
  split; [reflexivity|].
  apply (proj2 (parseNotFoundCommand_one_word "boom" "   ")).
  assert (Hsh : FindStringSubmatch notFoundRe "boom" = [])
    by (vm_compute; reflexivity).
  assert (Hzsh : FindStringSubmatch notFoundZshRe "boom" = [])
    by (vm_compute; reflexivity).
  refine (conj _ (conj _ eq_refl)).
  - intros (name & pre & w & post & Htext & Hshape).
    refine (FindStringSubmatch_complete notFoundRe pre w post (Some name) _ _).
    + apply notFoundRe_matches_iff. eauto.
    + rewrite <- Htext. exact Hsh.
  - intros (name & pre & w & post & Htext & Hshape).
    refine (FindStringSubmatch_complete notFoundZshRe pre w post
              (Some name) _ _).
    + apply notFoundZshRe_matches_iff. eauto.
    + rewrite <- Htext. exact Hzsh.
Defined.

Lemma append_inv_nil (s t : string) : s ++ t = s -> t = "".
Proof.
  induction s as [|c s IH]; [auto|].
  rewrite append_cons. intros [= H]. auto.
Qed.

Lemma isASCII_all (s : string) :
  isASCII s = all_string (fun c => (byte_of c <? 128)%N) s.
Proof.
  unfold isASCII. induction s as [|c s IH]; [reflexivity|].
  cbn. now rewrite IH.
Qed.

Lemma map_string_append (f : ascii -> ascii) (s t : string) :
  map_string f (s ++ t) = map_string f s ++ map_string f t.
Proof.
  induction s as [|c s IH]; [reflexivity|].
  rewrite append_cons. cbn. now rewrite IH.
Qed.

Lemma lower_byte_blank (c : ascii) : asciiSpace c = true -> lower_byte c = c.
Proof.
  unfold asciiSpace, lower_byte. cbv zeta. intros H. bool_to_N H.
  destruct (N.leb_spec 65 (byte_of c)); [|reflexivity].
  destruct (N.leb_spec (byte_of c) 90); [lia|reflexivity].
Qed.

Lemma map_lower_blanks (s : string) :
  all_string asciiSpace s = true -> map_string lower_byte s = s.
Proof.
  induction s as [|c s IH]; [reflexivity|].
  cbn. intros H. apply andb_prop in H as [Hc Hs].
  now rewrite (lower_byte_blank c Hc), IH.
Qed.

Lemma lower_byte_ascii (c : ascii) :
  (byte_of (lower_byte c) <? 128)%N = true -> (byte_of c <? 128)%N = true.
Proof.
  unfold lower_byte. cbv zeta.
  destruct (N.leb_spec 65 (byte_of c)); [|auto].
  destruct (N.leb_spec (byte_of c) 90); [|auto].
  intros _. apply N.ltb_lt. lia.
Qed.

Lemma map_lower_ascii (s : string) :
  isASCII (map_string lower_byte s) = true -> isASCII s = true.
Proof.
  rewrite !isASCII_all. induction s as [|c s IH]; [reflexivity|].
  cbn. intros H. apply andb_prop in H as [Hc Hs].
  now rewrite (lower_byte_ascii c Hc), IH.
Qed.

Lemma blanks_ascii (s : string) :
  all_string asciiSpace s = true -> isASCII s = true.
Proof.
  rewrite isASCII_all. apply all_string_impl.
  intros c Hc. apply N.ltb_lt. now apply asciiSpace_low.
Qed.

(** An ASCII answer between blanks: what [ConfirmAndRun] compares with
    [y] and [yes] is the answer in lower case. *)
Lemma answer_of_padded (unicode_lower : string -> string) (a w b : string) :
  all_string asciiSpace a = true -> all_string asciiSpace b = true ->
  isASCII w = true ->
  TrimSpace (ToLower unicode_lower ((a ++ w ++ b) ++ nl))
  = TrimSpace (map_string lower_byte w).
Proof.
  intros Ha Hb Hw. unfold ToLower.
  assert (Hascii : isASCII ((a ++ w ++ b) ++ nl) = true).
  { rewrite isASCII_all, !all_string_append, <- !isASCII_all.
    now rewrite (blanks_ascii a Ha), (blanks_ascii b Hb), Hw. }
  rewrite Hascii, !map_string_append.
  rewrite (map_lower_blanks a Ha), (map_lower_blanks b Hb).
  apply TrimSpace_padded. exists a, (b ++ nl).
  rewrite all_string_append, Hb, !append_assoc. auto.
Qed.

Section ExecutorMore.
Variable GOOS : string.
Variable LookPath : string -> bool.
Variable hintStyle_Render : string -> string.
Variable sh_c : string -> Child.
Variable unicode_lower : string -> string.

Local Abbreviation run_command :=
  (RunCommand GOOS LookPath hintStyle_Render sh_c).
Local Abbreviation confirm_and_run :=
  (ConfirmAndRun GOOS LookPath hintStyle_Render sh_c unicode_lower).
Local Abbreviation hint := (hint_text GOOS LookPath hintStyle_Render).

(** X7: the hint is written exactly when the child exits with status 127
    and a name can be found, that is, when the error text carries a
    message of either shape or the command has a field.  It then follows
    the child's own error text and says that the name is not installed;
    in every other case the error stream carries the child's text only. *)
Theorem RunCommand_hint_iff (command : string) :
  let child := sh_c command in
  let name := parseNotFoundCommand (child_stderr child) command in
  let exit127 := exists e, child_err child = Some e
                           /\ As_ExitError e = Some 127%Z in
  let named :=
    (exists n, mentions sh_not_found_message (child_stderr child) n)
    \/ (exists n, mentions zsh_not_found_message (child_stderr child) n)
    \/ Fields command <> [] in
  (exit127 /\ named ->
   stderr (run_command command) = child_stderr child ++ hint name
   /\ contains (stderr (run_command command)) (name ++ " is not installed.")
   /\ stderr (run_command command) <> child_stderr child)
  /\ (~ (exit127 /\ named) ->
      stderr (run_command command) = child_stderr child).
Proof.
  intros child name exit127 named. subst exit127 named.
  unfold RunCommand. cbn [stderr]. fold child. fold name. split.
  - intros [(e & He & H127) Hnamed].
    assert (Hne : name <> "").
    { destruct (parseNotFoundCommand_origin (child_stderr child) command)
        as [(Hne & _) | (_ & Hsh & Hzsh & Hf)]; [exact Hne|].
      destruct Hnamed as [H | [H | H]]; contradiction. }
    unfold hint_for. rewrite He, H127. cbn.
    apply String.eqb_neq in Hne. fold name. rewrite Hne. cbn.
    repeat split.
    + exists (child_stderr child ++ nl ++ "  " ++ hintStyle_Render "Hint:" ++ " "),
        (nl ++ "  " ++ installSuggestion GOOS LookPath name ++ nl).
      unfold hint_text. now rewrite !append_assoc.
    + intros H. apply append_inv_nil in H. discriminate H.
  - intros Hno.
    destruct (hint_for_cases GOOS LookPath hintStyle_Render
                (child_err child) (child_stderr child) command)
      as [-> | (Hexit & Hne & _)]; [apply append_nil_r|].
    destruct Hno. split; [exact Hexit|].
    destruct (parseNotFoundCommand_origin (child_stderr child) command)
      as [(_ & _ & Hwhy) | (Hnil & _)]; [exact Hwhy | contradiction].
Qed.


(** X10: when standard input ends before a line feed, even after a [y],
    the command does not run; the prompt is all that is written and the
    end-of-file error comes back wrapped as [reading input: ...]. *)
Theorem ConfirmAndRun_without_line_end (command stdin : string) :
  no_LF stdin = true ->
  confirm_and_run command stdin
  = {| stdout := "  Run this command? [y/N] "; stderr := ""; ran := [];
       ret := Some (Errorf "reading input: " EOF) |}.
Proof.
  intros H. unfold ConfirmAndRun. now rewrite (ReadString_EOF stdin H).
Qed.

(** X9: an answer that is [y] or [yes] in any mix of upper and lower case,
    with blanks, tabs or a carriage return around it, runs the command,
    and the result of the call is that of [RunCommand] after the prompt. *)
Theorem ConfirmAndRun_accepts_variants (command a w b rest : string) :
  all_string asciiSpace a = true -> all_string asciiSpace b = true ->
  no_LF (a ++ w ++ b) = true ->
  map_string lower_byte w = "y" \/ map_string lower_byte w = "yes" ->
  let o := confirm_and_run command ((a ++ w ++ b) ++ nl ++ rest) in
  ran o = [command]
  /\ ret o = ret (run_command command)
  /\ stdout o = "  Run this command? [y/N] " ++ stdout (run_command command)
  /\ stderr o = stderr (run_command command).
Proof.
  intros Ha Hb Hline Hw o. subst o. unfold ConfirmAndRun.
  rewrite (ReadString_line _ rest Hline).
  assert (Hascii : isASCII w = true).
  { apply map_lower_ascii. now destruct Hw as [-> | ->]. }
  rewrite (answer_of_padded unicode_lower a w b Ha Hb Hascii).
  destruct Hw as [-> | ->]; repeat split.
Qed.

End ExecutorMore.

(** X7 on the example host: a missing command gets the hint, a failing
    one does not. *)
Lemma RunCommand_hint_iff_witness :
  contains (stderr (Demo.RunCommand "rg foo")) "rg is not installed."
  /\ stderr (Demo.RunCommand "false") = "".
Proof.
  destruct (RunCommand_hint_iff Demo.GOOS Demo.LookPath Demo.Render Demo.sh_c
              "rg foo") as [H _].
  destruct (RunCommand_hint_iff Demo.GOOS Demo.LookPath Demo.Render Demo.sh_c
              "false") as [_ H'].
  split.
  - apply H. split.
    + exists (ExitError 127). split; reflexivity.
    + right. right. discriminate.
  - apply H'. intros [(e & He & H127) _].
    injection He as <-. discriminate H127.
Defined.


(** X10 on the example host: [y] without a line end. *)
Lemma ConfirmAndRun_without_line_end_witness :
  ran (Demo.ConfirmAndRun "true" "y") = []
  /\ ret (Demo.ConfirmAndRun "true" "y")
     = Some (Errorf "reading input: " EOF).
Proof.
  unfold Demo.ConfirmAndRun.
  rewrite (ConfirmAndRun_without_line_end Demo.GOOS Demo.LookPath Demo.Render
             Demo.sh_c Demo.unicode_lower "true" "y" eq_refl).
  split; reflexivity.
Defined.

(** X9 on the example host: [YeS] after a tab, with a CRLF line end. *)
Lemma ConfirmAndRun_accepts_variants_witness :
  let tab := String (ascii_of_N 9) "" in
  let cr := String (ascii_of_N 13) "" in
  ran (Demo.ConfirmAndRun "true" ((tab ++ "YeS" ++ " " ++ cr) ++ nl ++ "rest"))
  = ["true"].
Proof.
  intros tab cr.
  apply (ConfirmAndRun_accepts_variants Demo.GOOS Demo.LookPath Demo.Render
           Demo.sh_c Demo.unicode_lower "true" tab "YeS" (" " ++ cr) "rest");
    try reflexivity.
  right. reflexivity.
Defined.

(** X11: on every platform, whatever is installed, the suggestion starts
    with [Install] and contains the name of the command. *)
Theorem installSuggestion_mentions_name
    (GOOS : string) (LookPath : string -> bool) (name : string) :
  HasPrefix (installSuggestion GOOS LookPath name) "Install" = true
  /\ contains (installSuggestion GOOS LookPath name) name.
Proof.
  unfold installSuggestion, contains.
  destruct (String.eqb GOOS "darwin"); [|destruct (String.eqb GOOS "linux")];
    [|destruct (LookPath "apt");
       [|destruct (LookPath "dnf"); [|destruct (LookPath "pacman")]]|];
    (split; [reflexivity|]);
    first
      [ now (eexists _, ""; rewrite append_nil_r)
      | now (eexists _, _) ].
Qed.

(** ** The matcher step by step *)

Section MatcherSteps.
Context {R : Type}.
Implicit Types (k : string -> option string -> option R).

Lemma run_Cat_eq (r1 r2 : re) (s : string) (cap : option string) k :
  run (Cat r1 r2) s cap k = run r1 s cap (fun s' cap' => run r2 s' cap' k).
Proof. reflexivity. Qed.

Lemma run_Lit_app (l s : string) (cap : option string) k :
  run (Lit l) (l ++ s) cap k = k s cap.
Proof.
  cbn [run]. now rewrite (proj2 (strip_prefix_iff l (l ++ s) s) eq_refl).
Qed.

Lemma run_Cls_cons (p : ascii -> bool) (c : ascii) (s : string)
    (cap : option string) k :
  p c = true -> run (Cls p) (String c s) cap k = k s cap.
Proof. intros H. cbn [run]. now rewrite H. Qed.

Lemma run_Opt_take (r : re) (s : string) (cap : option string) k (x : R) :
  run r s cap k = Some x -> run (Opt r) s cap k = Some x.
Proof. intros H. cbn [run]. now rewrite H. Qed.

Lemma run_Opt_skip (r : re) (s : string) (cap : option string) k :
  run r s cap k = None -> run (Opt r) s cap k = k s cap.
Proof. intros H. cbn [run]. now rewrite H. Qed.

Lemma star_app_some (p : ascii -> bool) (w s : string)
    (k' : string -> option R) (x : R) :
  all_string p w = true -> star p s k' = Some x -> star p (w ++ s) k' = Some x.
Proof.
  intros Hw Hs. induction w as [|c w IH]; [exact Hs|].
  cbn in Hw. apply andb_prop in Hw as [Hc Hw].
  rewrite append_cons. cbn [star]. now rewrite Hc, (IH Hw).
Qed.

Lemma star_stop (p : ascii -> bool) (c : ascii) (s : string)
    (k' : string -> option R) :
  p c = false -> star p (String c s) k' = k' (String c s).
Proof. intros H. cbn [star]. now rewrite H. Qed.

(** A word of class [p], then one more byte [c] of the class, then a byte
    [d] outside: when the rest of the pattern fails after [w c] and
    succeeds after [w], group 1 is [w]. *)
Lemma run_word (p : ascii -> bool) (w : string) (c d : ascii) (u : string)
    (cap : option string) k (x : R) :
  w <> "" -> all_string p w = true -> p c = true -> p d = false ->
  k (String d u) (Some (w ++ String c "")) = None ->
  k (String c (String d u)) (Some w) = Some x ->
  run (Cap (Plus p)) (w ++ String c (String d u)) cap k = Some x.
Proof.
  intros Hne Hw Hc Hd Hlong Hshort.
  assert (E1 : take_string
                 (String.length (w ++ String c (String d u))
                  - String.length (String d u))
                 (w ++ String c (String d u))
               = w ++ String c "").
  { change (String c (String d u)) with (String c "" ++ String d u).
    rewrite <- append_assoc. apply take_string_append. }
  pose proof (take_string_append w (String c (String d u))) as E2.
  destruct w as [|c0 w]; [congruence|]. clear Hne.
  cbn in Hw. apply andb_prop in Hw as [Hc0 Hw].
  change (run (Cat (Cls p) (Star p)) (String c0 (w ++ String c (String d u)))
            cap
            (fun s' _ =>
               k s' (Some (take_string
                             (String.length
                                (String c0 w ++ String c (String d u))
                              - String.length s')
                             (String c0 w ++ String c (String d u)))))
          = Some x).
  rewrite run_Cat_eq, (run_Cls_cons p c0 _ _ _ Hc0).
  change (star p (w ++ String c (String d u))
            (fun s' =>
               k s' (Some (take_string
                             (String.length
                                (String c0 w ++ String c (String d u))
                              - String.length s')
                             (String c0 w ++ String c (String d u)))))
          = Some x).
  apply star_app_some; [exact Hw|].
  cbn [star]. rewrite Hc, Hd, E1, Hlong, E2. exact Hshort.
Qed.

Lemma run_Star_eq (p : ascii -> bool) (s : string) (cap : option string) k :
  run (Star p) s cap k = star p s (fun s' => k s' cap).
Proof. reflexivity. Qed.

Lemma run_Alt_l (r1 r2 : re) (s : string) (cap : option string) k (x : R) :
  run r1 s cap k = Some x -> run (Alt r1 r2) s cap k = Some x.
Proof. intros H. cbn [run]. now rewrite H. Qed.

Lemma run_Alt_r (r1 r2 : re) (s : string) (cap : option string) k :
  run r1 s cap k = None -> run (Alt r1 r2) s cap k = run r2 s cap k.
Proof. intros H. cbn [run]. now rewrite H. Qed.

Lemma star_stop_at (p : ascii -> bool) (s : string) (k' : string -> option R) :
  (forall c s', s = String c s' -> p c = false) -> star p s k' = k' s.
Proof.
  intros H. destruct s as [|c s]; [reflexivity|].
  apply star_stop. now apply (H c s).
Qed.

End MatcherSteps.

Lemma FindStringSubmatch_here (r : re) (s : string) (m : list string) :
  match_here r s = Some m -> FindStringSubmatch r s = m.
Proof. intros H. destruct s; cbn; now rewrite H. Qed.

Lemma word_not_line (name s : string) :
  all_string perl_S name = true ->
  strip_prefix "line " (name ++ String ":" s) = None.
Proof.
  intros Hname. unfold strip_prefix.
  destruct (HasPrefix (name ++ String ":" s) "line ") eqn:E; [|reflexivity].
  exfalso. apply HasPrefix_iff in E as [r E].
  assert (Hsp : perl_S " " = false) by reflexivity.
  destruct name as [|c1 [|c2 [|c3 [|c4 [|c5 name]]]]];
    cbv [String.append] in E; try discriminate E.
  injection E as -> -> -> -> -> _.
  cbn in Hname. discriminate Hname.
Qed.

Lemma word_first_byte (name s : string) (c : ascii) (s' : string) :
  name <> "" -> all_string perl_S name = true ->
  name ++ s = String c s' -> perl_s c = false.
Proof.
  destruct name as [|c0 name]; [congruence|]. intros _ H.
  rewrite append_cons. intros [= <- _].
  cbn in H. apply andb_prop in H as [H _].
  now apply negb_true_iff in H.
Qed.

Lemma run_notFoundRe_leading {R : Type} (shell line name post : string)
    (k : string -> option string -> option R) (x : R) :
  shell = "sh" \/ shell = "bash" ->
  line = ""
  \/ (exists n, n <> "" /\ all_string perl_d n = true
                /\ line = "line " ++ n ++ ": ") ->
  name <> "" -> all_string perl_S name = true ->
  k post (Some name) = Some x ->
  run notFoundRe
    (shell ++ ": " ++ line ++ name ++ ": command not found" ++ post) None k
  = Some x.
Proof.
  intros Hshell Hline Hne Hname Hk.
  change (shell ++ ": " ++ line ++ name ++ ": command not found" ++ post)
    with (shell ++ ":" ++ " " ++ line ++ name
          ++ String ":" (String " " ("command " ++ "not found" ++ post))).
  set (tail := String ":" (String " " ("command " ++ "not found" ++ post))).
  unfold notFoundRe. rewrite run_Cat_eq.
  assert (Hrest : forall cap,
    run (Cat (Cap (Plus perl_S))
           (Cat (Lit ":")
              (Cat (Star perl_s)
                 (Cat (Opt (Lit "command ")) (Lit "not found")))))
      (name ++ tail) cap k = Some x).
  { intros cap. rewrite run_Cat_eq. subst tail.
    apply run_word; try assumption; try reflexivity.
    change (String ":" (String " " ("command " ++ "not found" ++ post)))
      with (":" ++ " " ++ "command " ++ "not found" ++ post).
    rewrite run_Cat_eq, run_Lit_app, run_Cat_eq, run_Star_eq.
    apply star_app_some; [reflexivity|].
    rewrite star_stop_at by (now intros c s' [= <- _]).
    rewrite run_Cat_eq. apply run_Opt_take.
    now rewrite run_Lit_app, run_Lit_app. }
  assert (Hgroup : forall cap,
    run (Cat
           (Opt (Cat (Lit "line ")
                   (Cat (Plus perl_d) (Cat (Lit ":") (Star perl_s)))))
           (Cat (Cap (Plus perl_S))
              (Cat (Lit ":")
                 (Cat (Star perl_s)
                    (Cat (Opt (Lit "command ")) (Lit "not found"))))))
      (line ++ name ++ tail) cap k = Some x).
  { intros cap. rewrite run_Cat_eq.
    destruct Hline as [-> | (n & Hn & Hd & ->)].
    - change ("" ++ name ++ tail) with (name ++ tail).
      rewrite run_Opt_skip; [apply Hrest|].
      rewrite run_Cat_eq. cbn [run]. subst tail.
      now rewrite word_not_line.
    - apply run_Opt_take.
      change (("line " ++ n ++ ": ") ++ name ++ tail)
        with ("line " ++ (n ++ ": ") ++ name ++ tail).
      rewrite append_assoc.
      change (": " ++ name ++ tail) with (":" ++ " " ++ name ++ tail).
      rewrite run_Cat_eq, run_Lit_app.
      change (Plus perl_d) with (Cat (Cls perl_d) (Star perl_d)).
      rewrite !run_Cat_eq.
      destruct n as [|d0 n]; [congruence|].
      cbn in Hd. apply andb_prop in Hd as [Hd0 Hd].
      rewrite append_cons, (run_Cls_cons _ _ _ _ _ Hd0), run_Star_eq.
      apply star_app_some; [exact Hd|].
      rewrite star_stop_at by (now intros c s' [= <- _]).
      rewrite run_Cat_eq, run_Lit_app, run_Star_eq.
      apply star_app_some; [reflexivity|].
      rewrite star_stop_at; [apply Hrest|].
      intros c s'. now apply (word_first_byte name tail). }
  assert (Hafter : forall cap,
    run (Cat (Lit ":")
           (Cat (Star perl_s)
              (Cat
                 (Opt (Cat (Lit "line ")
                         (Cat (Plus perl_d) (Cat (Lit ":") (Star perl_s)))))
                 (Cat (Cap (Plus perl_S))
                    (Cat (Lit ":")
                       (Cat (Star perl_s)
                          (Cat (Opt (Lit "command ")) (Lit "not found"))))))))
      (":" ++ " " ++ line ++ name ++ tail) cap k = Some x).
  { intros cap. rewrite run_Cat_eq, run_Lit_app, run_Cat_eq, run_Star_eq.
    apply star_app_some; [reflexivity|].
    rewrite star_stop_at; [apply Hgroup|].
    intros c s'. destruct Hline as [-> | (n & _ & _ & ->)].
    - now apply (word_first_byte name tail).
    - now intros [= <- _]. }
  destruct Hshell as [-> | ->].
  - apply run_Alt_l. rewrite run_Lit_app. apply Hafter.
  - rewrite run_Alt_r by reflexivity. rewrite run_Lit_app. apply Hafter.
Qed.

(** X12: when the error text begins with the message of sh or bash for a
    missing command, with or without the [line N:] segment, the name in
    the message is what [parseNotFoundCommand] returns, whatever follows
    the message and whatever the command was. *)
Theorem parseNotFoundCommand_leading_message
    (shell line name post command : string) :
  shell = "sh" \/ shell = "bash" ->
  line = ""
  \/ (exists n, n <> "" /\ all_string perl_d n = true
                /\ line = "line " ++ n ++ ": ") ->
  name <> "" -> all_string perl_S name = true ->
  parseNotFoundCommand
    (shell ++ ": " ++ line ++ name ++ ": command not found" ++ post) command
  = name.
Proof.
  intros Hshell Hline Hne Hname.
  set (text := shell ++ ": " ++ line ++ name ++ ": command not found" ++ post).
  assert (Hhere : match_here notFoundRe text
                  = Some [take_string
                            (String.length text - String.length post) text;
                          name]).
  { unfold match_here. subst text. now apply run_notFoundRe_leading. }
  unfold parseNotFoundCommand.
  now rewrite (FindStringSubmatch_here _ _ _ Hhere).
Qed.

(** X12 on the two messages of bash and on output that goes on after the
    message. *)
Lemma parseNotFoundCommand_leading_message_witness :
  parseNotFoundCommand ("bash: line 12: my:tool: command not found" ++ nl)
    "ls" = "my:tool"
  /\ parseNotFoundCommand
       ("sh: line: command not found" ++ nl ++ "sh: x: command not found")
       "ls" = "line".
Proof.
  split.
  - apply (parseNotFoundCommand_leading_message "bash" "line 12: " "my:tool"
             nl "ls"); [now right | | discriminate | reflexivity].
    right. exists "12". repeat split. discriminate.
  - apply (parseNotFoundCommand_leading_message "sh" "" "line"
             (nl ++ "sh: x: command not found") "ls");
      [now left | now left | discriminate | reflexivity].
Defined.

